(** * The coding stylistic extractor ([src/utils.py]), embedded in Rocq

    The class [StylisticExtractorUtils] is modelled by explicit state
    passing: every method takes the object ([self]) and returns what it
    returns in Python together with the object afterwards and the effects
    it performed (lines printed, service calls, file writes), in order.

    Python's [str] is a sequence of Unicode code points; it is modelled as a
    list of code points so that [str.splitlines] cuts where Python cuts. *)

From Stdlib Require Import Ascii String.
From Stdlib Require Import List ZArith NArith Bool Lia.
Import ListNotations.

Local Open Scope Z_scope.

(** ** Text *)

(** A Python [str]: its code points, in order. *)
Definition pystr := list N.

(** An ASCII literal of the source as a [pystr]. *)
Definition lit (s : string) : pystr := map N_of_ascii (list_ascii_of_string s).

Fixpoint str_eqb (a b : pystr) : bool :=
  match a, b with
  | [], [] => true
  | x :: a', y :: b' => N.eqb x y && str_eqb a' b'
  | _, _ => false
  end.

(** [a.startswith(p)] *)
Fixpoint startswith (a p : pystr) {struct p} : bool :=
  match p, a with
  | [], _ => true
  | y :: p', x :: a' => N.eqb x y && startswith a' p'
  | _ :: _, [] => false
  end.

(** [p in a]: [p] occurs in [a] as a contiguous run. *)
Fixpoint contains (a p : pystr) : bool :=
  startswith a p || match a with [] => false | _ :: a' => contains a' p end.

(** [a.endswith(s)] *)
Definition endswith (a s : pystr) : bool := startswith (rev a) (rev s).

(** [sep.join(l)] *)
Fixpoint join (sep : pystr) (l : list pystr) : pystr :=
  match l with
  | [] => []
  | x :: tl => match tl with [] => x | _ :: _ => x ++ sep ++ join sep tl end
  end.

Definition LF : N := 10.
Definition FF : N := 12.
Definition CR : N := 13.

(** The line boundaries of [str.splitlines]: LF, VT, FF, CR, FS, GS, RS,
    NEL (U+0085), LS (U+2028) and PS (U+2029). *)
Definition is_linebreak (c : N) : bool :=
  match c with
  | 10 | 11 | 12 | 13 | 28 | 29 | 30 | 133 | 8232 | 8233 => true
  | _ => false
  end%N.

(** [s.splitlines()]: [cur] is the current line read so far, reversed. A line
    ends at a line boundary (CR LF counting as one) or at the end of the text;
    no empty line is produced at the end of the text. *)
Fixpoint splitlines_from (cur : pystr) (s : pystr) : list pystr :=
  match s with
  | [] => match cur with [] => [] | _ :: _ => [rev cur] end
  | c :: s' =>
      if is_linebreak c then
        rev cur ::
        match s' with
        | d :: s'' => if N.eqb c CR && N.eqb d LF
                      then splitlines_from [] s''
                      else splitlines_from [] s'
        | [] => splitlines_from [] s'
        end
      else splitlines_from (c :: cur) s'
  end.

Definition splitlines (s : pystr) : list pystr := splitlines_from [] s.

(** The spec's wording of the line count, "the number of newline-delimited
    segments": one segment per newline, and one more for text left after the
    last newline. [started] tells whether the current segment has a
    character. *)
Fixpoint newline_segments_from (started : bool) (s : pystr) : nat :=
  match s with
  | [] => if started then 1%nat else 0%nat
  | c :: s' => if N.eqb c LF then S (newline_segments_from false s')
               else newline_segments_from true s'
  end.

Definition newline_segments (s : pystr) : nat := newline_segments_from false s.

(** ** Paths and the file system *)

(** A [pathlib.Path]: its components. *)
Definition Path := list pystr.

(** [p.name] *)
Definition name (p : Path) : pystr := last p [].

(** [str(p)] *)
Definition path_str (p : Path) : pystr :=
  match p with [] => lit "." | _ :: _ => join (lit "/") p end.

(** [p.relative_to(root)], component by component; [None] is the
    [ValueError] raised when [p] does not lie beneath [root]. (Against a root
    of no component every path is taken as relative to it.) *)
Fixpoint relative_to (p root : Path) {struct root} : option Path :=
  match root with
  | [] => Some p
  | r :: root' =>
      match p with
      | c :: p' => if str_eqb c r then relative_to p' root' else None
      | [] => None
      end
  end.

(** What the program sees of the file system.
    - [walk root]: the entries beneath [root], relative to it, in the order
      in which [Path.rglob] meets them;
    - [read_text p]: [open(p, 'r', encoding='utf-8')] followed by [read()]:
      the decoded text, or the message of the exception raised by the open or
      by the decoding;
    - [open_w p]: [open(p, 'w', encoding='utf-8')]: [None] when the file is
      opened (created or emptied), else the exception's message;
    - [write_w p s]: [f.write(s)] on the file opened at [p]: [None] when it
      succeeds, else the exception's message;
    - [glob root pattern]: what [root.rglob(pattern)] yields, relative to
      [root] and in its order, for a pattern in which a glob character or a
      separator occurs after the leading star. *)
Record FileSystem := {
  walk : Path -> list Path;
  read_text : Path -> pystr + pystr;
  open_w : pystr -> option pystr;
  write_w : pystr -> pystr -> option pystr;
  glob : Path -> pystr -> list Path
}.

Definition STAR : N := 42.

(** The characters that are not taken literally in a pattern: the wildcards
    [*], [?] and [[], and the separators [/] and [\]. *)
Definition is_glob_char (c : N) : bool :=
  match c with
  | 42 | 63 | 91 | 47 | 92 => true
  | _ => false
  end%N.

(** The extension is a literal suffix: no character of it is special. *)
Definition literal (ext : pystr) : bool := forallb (fun c => negb (is_glob_char c)) ext.

(** [root.rglob('*' + ext)]. The extension is pasted into the pattern as it
    is. When it is literal, the pattern selects the entries beneath [root]
    whose name ends with it, in the order of the walk; otherwise its
    characters act in the pattern and the file system tells what is
    yielded. *)
Definition rglob (fs : FileSystem) (root : Path) (ext : pystr) : list Path :=
  if literal ext
  then filter (fun p => endswith (name p) ext)
              (map (fun rel => root ++ rel) (walk fs root))
  else map (fun rel => root ++ rel) (glob fs root (STAR :: ext)).

(** ** The object and its effects *)

(** A message of the conversation: the dict with keys "role" and
    "content". *)
Inductive Role := user | assistant.

Record Turn := { role : Role; content : pystr }.

(** A code sample: the dict with keys "path", "content" and "lines". *)
Module Sample.
Record t := { path : pystr; content : pystr; lines : Z }.
End Sample.

(** The request of [client.messages.create] and the part of its answer that
    the program reads. The client library is not part of the repository; of
    the answer the model keeps what the method reads: the text of each
    content block, of which there may be none, and the three usage counters
    (input, output, total), each of which the answer may lack ([None]). *)
Record Request := { model : pystr; max_tokens : Z; messages : list Turn }.

Record Usage := {
  input_tokens : option Z;
  output_tokens : option Z;
  total_tokens : option Z
}.

Record Message := { blocks : list pystr; usage : Usage }.

(** Exceptions that leave a method. *)
Inductive exn :=
| ServiceError (e : pystr)   (* raised by [client.messages.create] *)
| IndexError                 (* [message.content[0]] on an empty list *)
| AttributeError.            (* a usage counter that the answer lacks *)

(** The text-generation service: an answer or an exception per request. *)
Definition Client := Request -> pystr + Message.

(** What [read_files] catches for one file: the exception of the open or of
    the decoding, with its message, or the [ValueError] of [relative_to]. *)
Inductive read_error :=
| ReadError (e : pystr)
| NotBeneathRoot.

(** The lines the program prints, one constructor per [print] of the class,
    with the values its f-string shows. *)
Inductive line :=
| Found (n : nat)
| ReadLines (lines : Z) (filepath : Path)
| ErrorReading (name : pystr) (e : read_error)
| Total (total_lines : Z) (n : nat)
| DraftGenerated
| InputTokens (n : Z)
| OutputTokens (n : Z)
| TotalTokens (n : Z)
| NoContentToSave
| SavedDraft (output_file : pystr)
| ErrorSaving (e : pystr).

(** The effects of a call, in the order in which they happen. *)
Inductive effect :=
| Print (l : line)
| ServiceCall (req : Request)
| FileOpened (p : pystr)               (* created or emptied by [open(p, 'w')] *)
| FileWritten (p : pystr) (s : pystr).

(** The fields of [StylisticExtractorUtils] that the methods read or
    assign. *)
Record Utils := {
  repo_path : Path;
  output_file : pystr;
  conversation_history : list Turn;
  current_draft : option pystr
}.

(** [self.current_draft = text] *)
Definition set_current_draft (self : Utils) (text : pystr) : Utils :=
  {| repo_path := repo_path self;
     output_file := output_file self;
     conversation_history := conversation_history self;
     current_draft := Some text |}.

(** [self.conversation_history.append(turn)] *)
Definition append_turn (self : Utils) (turn : Turn) : Utils :=
  {| repo_path := repo_path self;
     output_file := output_file self;
     conversation_history := conversation_history self ++ [turn];
     current_draft := current_draft self |}.

(** [StylisticExtractorUtils(code_repository_path, output_file_path)] *)
Definition init (code_repository_path : Path) (output_file_path : pystr) : Utils :=
  {| repo_path := code_repository_path;
     output_file := output_file_path;
     conversation_history := [];
     current_draft := None |}.

(** ** scan_repository *)

(** The inner loop over one extension's matches: append, then leave the loop
    when the list has reached [max_files]. *)
Fixpoint scan_matches (max_files : Z) (code_files : list Path)
         (matches : list Path) : list Path :=
  match matches with
  | [] => code_files
  | filepath :: rest =>
      let code_files := code_files ++ [filepath] in
      if Z.of_nat (length code_files) >=? max_files then code_files
      else scan_matches max_files code_files rest
  end.

(** The outer loop: the [break] above leaves the inner loop only, so the
    next extension is walked in turn. *)
Definition scan_fold (fs : FileSystem) (root : Path) (max_files : Z)
           (extensions : list pystr) (code_files : list Path) : list Path :=
  fold_left (fun code_files ext =>
               scan_matches max_files code_files (rglob fs root ext))
            extensions code_files.

Definition scan_extensions (fs : FileSystem) (root : Path) (max_files : Z)
           (extensions : list pystr) : list Path :=
  scan_fold fs root max_files extensions [].

(** The value of [max_files] in a call that does not give it. *)
Definition default_max_files : Z := 20.

Definition scan_repository (fs : FileSystem) (self : Utils) (max_files : Z)
           (extensions : option (list pystr)) : list Path * Utils * list effect :=
  let extensions := match extensions with
                    | None => [lit ".py"]
                    | Some l => l
                    end in
  let code_files := scan_extensions fs (repo_path self) max_files extensions in
  (code_files, self, [Print (Found (length code_files))]).

(** ** read_files *)

(** The locals of the loop: [samples], [total_lines], and what was
    printed. *)
Record ReadState := {
  samples : list Sample.t;
  total_lines : Z;
  printed : list effect
}.

(** One turn of the loop. [total_lines] is updated before the dict is built,
    so a [relative_to] that raises leaves the lines counted and no sample. *)
Definition read_file (fs : FileSystem) (self : Utils) (st : ReadState)
           (filepath : Path) : ReadState :=
  match read_text fs filepath with
  | inr e =>
      {| samples := samples st;
         total_lines := total_lines st;
         printed := printed st ++
           [Print (ErrorReading (name filepath) (ReadError e))] |}
  | inl content =>
      let lines := Z.of_nat (length (splitlines content)) in
      let total_lines := total_lines st + lines in
      match relative_to filepath (repo_path self) with
      | None =>
          {| samples := samples st;
             total_lines := total_lines;
             printed := printed st ++
               [Print (ErrorReading (name filepath) NotBeneathRoot)] |}
      | Some rel =>
          {| samples := samples st ++
               [{| Sample.path := path_str rel;
                   Sample.content := content;
                   Sample.lines := lines |}];
             total_lines := total_lines;
             printed := printed st ++ [Print (ReadLines lines filepath)] |}
      end
  end.

Definition read_loop (fs : FileSystem) (self : Utils) (filepaths : list Path)
  : ReadState :=
  fold_left (read_file fs self) filepaths
            {| samples := []; total_lines := 0; printed := [] |}.

Definition read_files (fs : FileSystem) (self : Utils) (filepaths : list Path)
  : list Sample.t * Utils * list effect :=
  let st := read_loop fs self filepaths in
  (samples st, self,
   printed st ++ [Print (Total (total_lines st) (length (samples st)))]).

(** ** extraction *)

(** One sample as rendered in the prompt. *)
Definition file_marker : pystr := lit "### File: ".
Definition code_open : pystr := [LF] ++ lit "```python" ++ [LF].
Definition code_close : pystr := [LF] ++ lit "```".

Definition render (sample : Sample.t) : pystr :=
  file_marker ++ Sample.path sample ++ code_open
  ++ Sample.content sample ++ code_close.

Definition combined_code (code_samples : list Sample.t) : pystr :=
  join [LF; LF] (map render code_samples).

(** The template before and after the rendered samples. *)
Definition prompt_head : pystr := lit
"I want you to analyze these Python files from my repository and create a comprehensive coding style guide.

These files represent my personal coding style developed over time. Your task is to:

1. **Identify patterns and conventions** across all files
2. **Create a detailed markdown style guide** that captures my distinctive coding style
3. **Include specific examples** from my actual code
4. **Make it prescriptive** so another AI could replicate my style exactly

Analyze these aspects:

**Documentation:**
- Docstring format (Google/NumPy/Sphinx style?)
- What sections do I include? (Args, Returns, Examples, etc.)
- Level of detail in docstrings
- Module-level documentation patterns

**Type Hints:**
- Where and when do I use type annotations?
- Full typing or selective?
- Complex types (Union, Optional, List, Dict patterns)

**Naming Conventions:**
- Variable naming (length, descriptiveness, patterns)
- Function naming (verbs, patterns)
- Class naming
- Constants (if any)
- Private/protected members (underscore usage)

**Code Organization:**
- Import ordering and grouping
- Class structure (method ordering, organization)
- File structure patterns
- Use of __init__.py, __main__.py

**Comments:**
- When do I add comments?
- Inline vs block comments
- Comment style and detail level

**Code Style:**
- Line length preferences
- Indentation patterns
- Blank line usage
- String quotes (single vs double)

**Python Idioms:**
- List/dict comprehensions usage
- Use of decorators
- Context managers
- Generators and iterators
- Exception handling patterns

**Distinctive Patterns:**
- Any unique or characteristic patterns you notice
- Preferred libraries or approaches
- Code complexity preferences

Here are my Python files:

".

Definition prompt_tail : pystr := lit
"

Create a markdown document with clear sections, examples, and actionable rules.
Format it as a professional style guide that could be given to a coding agent.".

Definition prompt (code_samples : list Sample.t) : pystr :=
  prompt_head ++ combined_code code_samples ++ prompt_tail.

Definition request (code_samples : list Sample.t) : Request :=
  {| model := lit "claude-sonnet-4-20250514";
     max_tokens := 8000;
     messages := [{| role := user; content := prompt code_samples |}] |}.

(** The statistics printed at the end of [extraction]: the counters are
    read one after the other, and the first one that the answer lacks ends
    the method with [AttributeError], after the lines printed so far. *)
Definition statistics (u : Usage) : option exn * list effect :=
  let out := [Print DraftGenerated] in
  match input_tokens u with
  | None => (Some AttributeError, out)
  | Some n_in =>
      let out := out ++ [Print (InputTokens n_in)] in
      match output_tokens u with
      | None => (Some AttributeError, out)
      | Some n_out =>
          let out := out ++ [Print (OutputTokens n_out)] in
          match total_tokens u with
          | None => (Some AttributeError, out)
          | Some n => (None, out ++ [Print (TotalTokens n)])
          end
      end
  end.

(** The call comes first; an exception from it, or from reading the first
    content block of the answer, leaves the method before any field is
    assigned. The fields are then assigned in the order of the source: the
    draft, the [user] turn, the [assistant] turn. The statistics are printed
    last, so an exception from them leaves the method with the fields
    assigned. *)
Definition extraction (client : Client) (self : Utils)
           (code_samples : list Sample.t) : (exn + pystr) * Utils * list effect :=
  let req := request code_samples in
  match client req with
  | inl e => (inl (ServiceError e), self, [ServiceCall req])
  | inr message =>
      match blocks message with
      | [] => (inl IndexError, self, [ServiceCall req])
      | text :: _ =>
          let self := set_current_draft self text in
          let self := append_turn self
                        {| role := user; content := prompt code_samples |} in
          let self := append_turn self
                        {| role := assistant; content := text |} in
          let stats := statistics (usage message) in
          (match fst stats with
           | Some e => inl e
           | None => inr text
           end,
           self, ServiceCall req :: snd stats)
      end
  end.

(** ** save_draft *)

Definition save_draft (fs : FileSystem) (self : Utils) (content : option pystr)
  : unit * Utils * list effect :=
  let content := match content with
                 | None => current_draft self
                 | Some c => Some c
                 end in
  match content with
  | None => (tt, self, [Print NoContentToSave])
  | Some content =>
      match open_w fs (output_file self) with
      | Some e => (tt, self, [Print (ErrorSaving e)])
      | None =>
          match write_w fs (output_file self) content with
          | Some e => (tt, self, [FileOpened (output_file self);
                                  Print (ErrorSaving e)])
          | None => (tt, self, [FileOpened (output_file self);
                                FileWritten (output_file self) content;
                                Print (SavedDraft (output_file self))])
          end
      end
  end.

(** ** Reading a call's outcome *)

Definition returned {A B C : Type} (x : A * B * C) : A := fst (fst x).
Definition object_after {A B C : Type} (x : A * B * C) : B := snd (fst x).
Definition effects {A B C : Type} (x : A * B * C) : C := snd x.

(** The entries beneath the root, as [rglob] yields them. *)
Definition entries (fs : FileSystem) (root : Path) : list Path :=
  map (fun rel => root ++ rel) (walk fs root).



(** [open] and the decoding succeed on [p]. *)
Definition readable (fs : FileSystem) (p : Path) : bool :=
  match read_text fs p with inl _ => true | inr _ => false end.

(** [p] lies beneath [root], as every path that [rglob] yields from [root]
    does. *)
Definition beneath (root p : Path) : bool :=
  match relative_to p root with Some _ => true | None => false end.

(** The text has no line boundary other than the newline. *)
Definition only_newlines (s : pystr) : bool :=
  forallb (fun c => negb (is_linebreak c) || N.eqb c LF) s.

(** The number of newline characters of a text. *)
Definition newlines (s : pystr) : nat := length (filter (N.eqb LF) s).

Definition sum_lines (l : list Sample.t) : Z :=
  fold_right Z.add 0 (map Sample.lines l).

(** What a sample owes to the path it was read from. *)
Definition sample_of (fs : FileSystem) (root : Path) (p : Path) (s : Sample.t)
  : Prop :=
  read_text fs p = inl (Sample.content s)
  /\ (exists rel, relative_to p root = Some rel /\ Sample.path s = path_str rel)
  /\ Sample.lines s = Z.of_nat (length (splitlines (Sample.content s))).

(** What the prompt shows of a sample: its path and its text. *)
Definition shown (sample : Sample.t) : pystr * pystr :=
  (Sample.path sample, Sample.content sample).

(** What follows a rendered sample in [combined_code]. *)
Definition following (code_samples : list Sample.t) : pystr :=
  match code_samples with
  | [] => []
  | _ :: _ => [LF; LF] ++ combined_code code_samples
  end.

(** Free of what the wrapping is made of: no newline in the path, no
    closing fence in the text. *)
Definition plain (s : Sample.t) : bool :=
  negb (contains (Sample.path s) [LF])
  && negb (contains (Sample.content s) code_close).

(** The requests sent to the service among a call's effects. *)
Definition service_calls (l : list effect) : list Request :=
  flat_map (fun e => match e with ServiceCall req => [req] | _ => [] end) l.

(** The effect touches a file. *)
Definition is_write (e : effect) : bool :=
  match e with
  | FileOpened _ | FileWritten _ _ => true
  | Print _ | ServiceCall _ => false
  end.

Definition role_eqb (a b : Role) : bool :=
  match a, b with
  | user, user | assistant, assistant => true
  | _, _ => false
  end.

Definition other (r : Role) : Role :=
  match r with user => assistant | assistant => user end.

(** The turns alternate, the first one having the role [expected]. *)
Fixpoint alternates (expected : Role) (h : list Turn) : bool :=
  match h with
  | [] => true
  | t :: h' => role_eqb (role t) expected && alternates (other expected) h'
  end.

(** The role expected after [n] alternating turns that began with [r]. *)
Definition role_after (r : Role) (n : nat) : Role :=
  if Nat.even n then r else other r.

(** What every call preserves: the turns alternate from a [user] turn on,
    and they are even in number. *)
Definition paired (h : list Turn) : Prop :=
  alternates user h = true /\ Nat.even (length h) = true.

(** One method call on the object. *)
Inductive step : Utils -> Utils -> Prop :=
| step_scan_repository fs self max_files extensions :
    step self (object_after (scan_repository fs self max_files extensions))
| step_read_files fs self filepaths :
    step self (object_after (read_files fs self filepaths))
| step_extraction client self code_samples :
    step self (object_after (extraction client self code_samples))
| step_save_draft fs self content :
    step self (object_after (save_draft fs self content)).

(** The objects that a program can hold: a new one, then any calls. *)
Inductive reachable : Utils -> Prop :=
| reachable_init code_repository_path output_file_path :
    reachable (init code_repository_path output_file_path)
| reachable_step self self' :
    reachable self -> step self self' -> reachable self'.

(** ** Concrete inputs *)

Definition repo : Path := [lit "repo"].

(** A file system for scans with literal extensions: its entries, and the
    outcome of reading each. *)
Definition plain_fs (listing : list Path) (texts : Path -> pystr + pystr)
  : FileSystem :=
  {| walk := fun _ => listing;
     read_text := texts;
     open_w := fun _ => None;
     write_w := fun _ _ => None;
     glob := fun _ _ => [] |}.

Definition no_text : Path -> pystr + pystr := fun _ => inr (lit "No such file").

(** [repo/a.py] and [repo/b.js]. *)
Definition fs_py_js : FileSystem := plain_fs [[lit "a.py"]; [lit "b.js"]] no_text.

(** [repo/a.tar.gz] alone. *)
Definition fs_tar : FileSystem := plain_fs [[lit "a.tar.gz"]] no_text.



(** [repo/a.py] (two lines), [repo/b.py] (not decodable) and
    [repo/sub/c.py] (one line, no final newline). *)
Definition fs_corrupt : FileSystem :=
  plain_fs [[lit "a.py"]; [lit "b.py"]; [lit "sub"; lit "c.py"]]
           (fun p => if str_eqb (name p) (lit "a.py")
                     then inl (lit "import os" ++ [LF] ++ lit "x = 1" ++ [LF])
                     else if str_eqb (name p) (lit "c.py")
                          then inl (lit "pass")
                          else inr (lit "invalid start byte")).

(** [repo/a.py] holding "a", a form feed, and "b". *)
Definition fs_form_feed : FileSystem :=
  plain_fs [[lit "a.py"]] (fun _ => inl (lit "a" ++ [FF] ++ lit "b")).

Definition a_py : Path := repo ++ [lit "a.py"].
Definition b_py : Path := repo ++ [lit "b.py"].
Definition c_py : Path := repo ++ [lit "sub"; lit "c.py"].

Definition sample (p : string) (text : pystr) : Sample.t :=
  {| Sample.path := lit p;
     Sample.content := text;
     Sample.lines := Z.of_nat (length (splitlines text)) |}.

(** [a.py] holding "x = 1" and [b.py] holding "y = 2". *)
Definition two_samples : list Sample.t :=
  [sample "a.py" (lit "x = 1"); sample "b.py" (lit "y = 2")].

(** The same two files with no line counts. *)
Definition two_samples_uncounted : list Sample.t :=
  [{| Sample.path := lit "a.py"; Sample.content := lit "x = 1";
      Sample.lines := 0 |};
   {| Sample.path := lit "b.py"; Sample.content := lit "y = 2";
      Sample.lines := 0 |}].

(** A single file [a.py] whose text goes on, after "x = 1", with a closing
    fence, a blank line, the marker of [b.py], an opening fence and
    "y = 2". *)
Definition one_sample_in_disguise : list Sample.t :=
  [sample "a.py" (lit "x = 1" ++ code_close ++ [LF; LF]
                  ++ file_marker ++ lit "b.py" ++ code_open ++ lit "y = 2")].

(** An answer whose first content block is the text "# Style guide". *)
Definition guide_message : Message :=
  {| blocks := [lit "# Style guide"];
     usage := {| input_tokens := Some 1200;
                 output_tokens := Some 300;
                 total_tokens := Some 1500 |} |}.

(** A service that answers every request with it. *)
Definition client_ok : Client := fun _ => inr guide_message.

(** An answer with the same text and no total among its counters, and a
    service that gives it. *)
Definition guide_message_no_total : Message :=
  {| blocks := [lit "# Style guide"];
     usage := {| input_tokens := Some 1200;
                 output_tokens := Some 300;
                 total_tokens := None |} |}.

Definition client_no_total : Client := fun _ => inr guide_message_no_total.

(** A service that cannot be reached. *)
Definition client_down : Client := fun _ => inl (lit "Connection error.").

(** An answer with no content block, and a service that gives it. *)
Definition empty_message : Message :=
  {| blocks := [];
     usage := {| input_tokens := Some 1200;
                 output_tokens := Some 0;
                 total_tokens := Some 1200 |} |}.

Definition client_empty : Client := fun _ => inr empty_message.

(** A file system on which the write fails once the file is open. *)
Definition fs_full : FileSystem :=
  {| walk := fun _ => [];
     read_text := no_text;
     open_w := fun _ => None;
     write_w := fun _ _ => Some (lit "No space left on device");
     glob := fun _ _ => [] |}.

(** The object of the examples. *)
Definition utils0 : Utils := init repo (lit "guide.md").

(** ** main *)

(** The characters that [str.strip] removes: those for which [str.isspace]
    holds. *)
Definition is_space (c : N) : bool :=
  match c with
  | 9 | 10 | 11 | 12 | 13 | 28 | 29 | 30 | 31 | 32 | 133 | 160 | 5760
  | 8192 | 8193 | 8194 | 8195 | 8196 | 8197 | 8198 | 8199 | 8200 | 8201
  | 8202 | 8232 | 8233 | 8239 | 8287 | 12288 => true
  | _ => false
  end%N.

(** [s.lstrip()], [s.rstrip()] and [s.strip()] *)
Fixpoint lstrip (s : pystr) : pystr :=
  match s with
  | [] => []
  | c :: s' => if is_space c then lstrip s' else s
  end.

Definition rstrip (s : pystr) : pystr := rev (lstrip (rev s)).

Definition strip (s : pystr) : pystr := rstrip (lstrip s).

(** What [main] takes from the process and from [pathlib]:
    - [argv]: [sys.argv];
    - [typed]: what [input] returns, [None] when it raises [EOFError];
    - [to_path s]: [Path(s)];
    - [path_exists p] and [path_is_dir p]: [p.exists()] and [p.is_dir()]:
      the answer, or the message of the [OSError] that they let through (a
      name too long, a permission denied). *)
Record Host := {
  argv : list pystr;
  typed : option pystr;
  to_path : pystr -> Path;
  path_exists : Path -> pystr + bool;
  path_is_dir : Path -> pystr + bool
}.

(** The lines that [main] prints itself. *)
Inductive main_line :=
| Rule                                  (* "=" * 70 *)
| Title
| PathDoesNotExist (repo_path : pystr)
| NotADirectory (repo_path : pystr)
| NoCodeFiles
| NoCodeSamples
| ExtractionComplete
| NextSteps
| ReviewTheDraft (output_file : pystr)
| UploadIt
| RefineIt
| SaveFinalVersion.

(** The effects of [main]: its own lines, the question it asks on the
    terminal, and the effects of the methods it calls. *)
Inductive main_effect :=
| Say (l : main_line)
| Asked
| Method (e : effect).

(** Exceptions that leave [main]. *)
Inductive main_exn :=
| EOFError                   (* raised by [input] *)
| OSError (e : pystr)        (* raised by [exists] or [is_dir] *)
| Uncaught (e : exn).        (* raised by [extraction] *)

Definition MAX_FILES : Z := 20.
Definition OUTPUT_FILE : pystr := lit "coding_stylistic_guide_DRAFT.md".

(** The repository path: [sys.argv[1]] as it is when there is one, else the
    line typed at the question, stripped. *)
Definition read_repo_path (host : Host)
  : main_exn + (pystr * list main_effect) :=
  match argv host with
  | _ :: repo_path :: _ => inr (repo_path, [])
  | _ => match typed host with
         | Some s => inr (strip s, [Asked])
         | None => inl EOFError
         end
  end.

(** Steps 1 and 2 of [main] on the object made for [root]. *)
Definition main_scan (fs : FileSystem) (root : Path)
  : list Path * Utils * list effect :=
  scan_repository fs (init root OUTPUT_FILE) MAX_FILES (Some [lit ".py"]).

Definition main_read (fs : FileSystem) (root : Path)
  : list Sample.t * Utils * list effect :=
  read_files fs (object_after (main_scan fs root)) (returned (main_scan fs root)).

Definition main_extraction (fs : FileSystem) (client : Client) (root : Path)
  : (exn + pystr) * Utils * list effect :=
  extraction client (object_after (main_read fs root))
             (returned (main_read fs root)).

Definition main_save (fs : FileSystem) (client : Client) (root : Path)
  : unit * Utils * list effect :=
  save_draft fs (object_after (main_extraction fs client root)) None.

Definition main (host : Host) (fs : FileSystem) (client : Client)
  : (main_exn + unit) * list main_effect :=
  let out := [Say Rule; Say Title; Say Rule] in
  match read_repo_path host with
  | inl e => (inl e, out ++ [Asked])
  | inr (repo_path, asked) =>
      let out := out ++ asked in
      let root := to_path host repo_path in
      match path_exists host root with
      | inl e => (inl (OSError e), out)
      | inr false => (inr tt, out ++ [Say (PathDoesNotExist repo_path)])
      | inr true =>
      match path_is_dir host root with
      | inl e => (inl (OSError e), out)
      | inr false => (inr tt, out ++ [Say (NotADirectory repo_path)])
      | inr true =>
        let out := out ++ map Method (effects (main_scan fs root)) in
        match returned (main_scan fs root) with
        | [] => (inr tt, out ++ [Say NoCodeFiles])
        | _ :: _ =>
            let out := out ++ map Method (effects (main_read fs root)) in
            match returned (main_read fs root) with
            | [] => (inr tt, out ++ [Say NoCodeSamples])
            | _ :: _ =>
                let out := out ++ map Method
                                      (effects (main_extraction fs client root)) in
                match returned (main_extraction fs client root) with
                | inl e => (inl (Uncaught e), out)
                | inr _ =>
                    (inr tt,
                     out ++ map Method (effects (main_save fs client root))
                     ++ [Say ExtractionComplete; Say NextSteps;
                         Say (ReviewTheDraft OUTPUT_FILE); Say UploadIt;
                         Say RefineIt; Say SaveFinalVersion])
                end
            end
        end
      end
      end
  end.

(** ** Reading the effects *)

(** The effects of the methods among the effects of [main]. *)
Definition method_effects (l : list main_effect) : list effect :=
  flat_map (fun e => match e with Method e => [e] | _ => [] end) l.

Definition is_print (e : effect) : bool :=
  match e with Print _ => true | _ => false end.

(** The answer has its three counters. *)
Definition usage_complete (u : Usage) : bool :=
  match input_tokens u, output_tokens u, total_tokens u with
  | Some _, Some _, Some _ => true
  | _, _, _ => false
  end.

(** The line tells that a file could not be read. *)
Definition is_error (e : effect) : bool :=
  match e with Print (ErrorReading _ _) => true | _ => false end.

(** The lines of a file's text, 0 when it cannot be read. *)
Definition text_lines (fs : FileSystem) (p : Path) : Z :=
  match read_text fs p with
  | inl text => Z.of_nat (length (splitlines text))
  | inr _ => 0
  end.

(** The content that [save_draft] has to save. *)
Definition to_save (self : Utils) (content : option pystr) : option pystr :=
  match content with Some c => Some c | None => current_draft self end.

(** Any number of method calls, one after the other. *)
Inductive steps : Utils -> Utils -> Prop :=
| steps_refl self : steps self self
| steps_step self self' self'' :
    steps self self' -> step self' self'' -> steps self self''.

(** The draft is the text of the last turn, which the service gave. *)
Definition draft_is_last_turn (self : Utils) : Prop :=
  match current_draft self with
  | None => conversation_history self = []
  | Some d => exists h p,
      conversation_history self
      = h ++ [{| role := user; content := p |};
              {| role := assistant; content := d |}]
  end.

(** ** Concrete inputs for [main] *)

Definition host_argv (repo_path : string) : Host :=
  {| argv := [lit "utils.py"; lit repo_path];
     typed := None;
     to_path := fun s => [s];
     path_exists := fun _ => inr true;
     path_is_dir := fun _ => inr true |}.

Definition host_typed (line : pystr) : Host :=
  {| argv := [lit "utils.py"];
     typed := Some line;
     to_path := fun s => [s];
     path_exists := fun p => inr (str_eqb (name p) (lit "repo"));
     path_is_dir := fun p => inr (str_eqb (name p) (lit "repo")) |}.

(** * Properties of scan_repository *)

Section Scan.

Variable fs : FileSystem.
Variable root : Path.

Lemma rglob_literal (ext : pystr) :
  literal ext = true ->
  rglob fs root ext
  = filter (fun p => endswith (name p) ext) (entries fs root).
Proof. intros Hlit. unfold rglob, entries. now rewrite Hlit. Qed.

Lemma rglob_from_root (ext : pystr) (p : Path) :
  In p (rglob fs root ext) -> exists rel, p = root ++ rel.
Proof.
  unfold rglob. destruct (literal ext); intros Hp.
  - apply filter_In in Hp. destruct Hp as [Hp _].
    apply in_map_iff in Hp. destruct Hp as (rel & <- & _). now exists rel.
  - apply in_map_iff in Hp. destruct Hp as (rel & <- & _). now exists rel.
Qed.



(** Whatever the cap, one extension's walk adds at most one path to a list
    that has already reached it. *)
Lemma scan_matches_length (max_files : Z) (matches code_files : list Path) :
  Z.of_nat (length (scan_matches max_files code_files matches))
  <= Z.max (Z.of_nat (length code_files) + 1) max_files.
Proof.
  revert code_files.
  induction matches as [|p rest IH]; intros code_files; simpl.
  - lia.
  - destruct (Z.geb_spec (Z.of_nat (length (code_files ++ [p]))) max_files) as [Hcap|Hno].
    + rewrite length_app. simpl. lia.
    + specialize (IH (code_files ++ [p])).
      rewrite length_app in *. simpl in *. lia.
Qed.

Lemma scan_matches_extends (max_files : Z) (matches code_files : list Path) :
  exists taken, scan_matches max_files code_files matches = code_files ++ taken
                /\ incl taken matches.
Proof.
  revert code_files.
  induction matches as [|p rest IH]; intros code_files; simpl.
  - exists []. split; [now rewrite app_nil_r | easy].
  - destruct (Z.of_nat (length (code_files ++ [p])) >=? max_files).
    + exists [p]. split; [reflexivity|]. intros x [->|[]]. now left.
    + destruct (IH (code_files ++ [p])) as (taken & -> & Hincl).
      exists (p :: taken). split; [now rewrite <- app_assoc|].
      intros x [->|Hx]; [now left | right; auto].
Qed.



(** Every extension adds at most one path to a list that has reached the
    cap. *)
Lemma scan_fold_length (max_files : Z) (extensions : list pystr)
      (code_files : list Path) :
  Z.of_nat (length (scan_fold fs root max_files extensions code_files))
  <= Z.max (Z.of_nat (length code_files)) max_files
     + Z.of_nat (length extensions).
Proof.
  revert code_files.
  induction extensions as [|ext rest IH]; intros code_files.
  - simpl. lia.
  - unfold scan_fold in *. simpl fold_left.
    specialize (IH (scan_matches max_files code_files (rglob fs root ext))).
    pose proof (scan_matches_length max_files (rglob fs root ext) code_files).
    simpl length. lia.
Qed.


Lemma str_eqb_refl (a : pystr) : str_eqb a a = true.
Proof.
  induction a as [|x a IH]; [reflexivity|].
  simpl. now rewrite N.eqb_refl, IH.
Qed.

Lemma relative_to_app (base rel : Path) :
  relative_to (base ++ rel) base = Some rel.
Proof.
  induction base as [|r base' IH]; [reflexivity|].
  simpl. now rewrite str_eqb_refl.
Qed.

(** Every path that the scan returns lies beneath the root. *)
Lemma scan_fold_beneath (max_files : Z) (extensions : list pystr)
      (code_files : list Path) :
  Forall (fun p => beneath root p = true) code_files ->
  Forall (fun p => beneath root p = true)
         (scan_fold fs root max_files extensions code_files).
Proof.
  revert code_files.
  induction extensions as [|ext rest IH]; intros code_files Hall; simpl.
  - exact Hall.
  - unfold scan_fold in *. simpl. apply IH.
    destruct (scan_matches_extends max_files (rglob fs root ext) code_files)
      as (taken & -> & Hincl).
    apply Forall_app. split; [exact Hall|].
    apply Forall_forall. intros p Hp.
    apply Hincl in Hp. apply rglob_from_root in Hp.
    destruct Hp as (rel & ->).
    unfold beneath. now rewrite relative_to_app.
Qed.

End Scan.

(** C1. The cap is not global: with [max_files = 1] and the extensions
    [".py"; ".js"] over a root holding [a.py] and [b.js], the walk of ".py"
    stops at [a.py] with the cap reached, and the walk of ".js" still appends
    [b.js]: two paths are returned, one more than the cap. *)
Theorem scan_repository_cap_exceeded :
  returned (scan_repository fs_py_js utils0 1 (Some [lit ".py"; lit ".js"]))
  = [repo ++ [lit "a.py"]; repo ++ [lit "b.js"]]
  /\ Z.of_nat (length (returned (scan_repository fs_py_js utils0 1
                                   (Some [lit ".py"; lit ".js"])))) > 1.
Proof. split; [reflexivity | vm_compute; reflexivity]. Qed.

(** What the loops do guarantee: at most [max_files] paths (or none), and
    one more for every extension. *)
Lemma scan_repository_length_bound (fs : FileSystem) (self : Utils)
      (max_files : Z) (extensions : list pystr) :
  Z.of_nat (length (returned (scan_repository fs self max_files (Some extensions))))
  <= Z.max 0 max_files + Z.of_nat (length extensions).
Proof.
  unfold scan_repository, returned, scan_extensions. simpl.
  pose proof (scan_fold_length fs (repo_path self) max_files extensions []) as H.
  simpl in H. exact H.
Qed.

(** The paths that the scan returns are candidate paths for [read_files]. *)
Lemma scan_repository_beneath (fs : FileSystem) (self : Utils)
      (max_files : Z) (extensions : option (list pystr)) :
  Forall (fun p => beneath (repo_path self) p = true)
         (returned (scan_repository fs self max_files extensions)).
Proof.
  unfold scan_repository, returned, scan_extensions. simpl.
  apply scan_fold_beneath. constructor.
Qed.




(** * Properties of read_files *)

Section Read.

Variable fs : FileSystem.
Variable self : Utils.

Lemma read_loop_from (filepaths : list Path) (st : ReadState) :
  Forall (fun p => beneath (repo_path self) p = true) filepaths ->
  exists new,
    samples (fold_left (read_file fs self) filepaths st) = samples st ++ new
    /\ total_lines (fold_left (read_file fs self) filepaths st)
       = total_lines st + sum_lines new
    /\ Forall2 (sample_of fs (repo_path self))
               (filter (readable fs) filepaths) new.
Proof.
  revert st.
  induction filepaths as [|p rest IH]; intros st Hall.
  - exists []. simpl. rewrite app_nil_r. unfold sum_lines. simpl.
    repeat split; [lia | constructor].
  - inversion Hall as [|? ? Hp Hrest]; subst.
    simpl fold_left. simpl filter.
    destruct (IH (read_file fs self st p) Hrest) as (new & Hs & Ht & Hf).
    unfold beneath in Hp. unfold readable at 1.
    unfold read_file in Hs, Ht.
    destruct (read_text fs p) as [text|e] eqn:Hread.
    + destruct (relative_to p (repo_path self)) as [rel|] eqn:Hrel;
        [|discriminate].
      simpl in Hs, Ht.
      exists ({| Sample.path := path_str rel; Sample.content := text;
                 Sample.lines := Z.of_nat (length (splitlines text)) |} :: new).
      unfold read_file. rewrite Hread, Hrel.
      repeat split.
      * rewrite Hs. now rewrite <- app_assoc.
      * rewrite Ht. unfold sum_lines. simpl. lia.
      * constructor; [|exact Hf].
        repeat split; simpl; auto. exists rel. auto.
    + simpl in Hs, Ht. exists new.
      unfold read_file. rewrite Hread. auto.
Qed.

Lemma only_newlines_count (s cur : pystr) :
  only_newlines s = true ->
  length (splitlines_from cur s)
  = newline_segments_from (match cur with [] => false | _ :: _ => true end) s.
Proof.
  revert cur.
  induction s as [|c s' IH]; intros cur Hs.
  - destruct cur; reflexivity.
  - simpl in Hs. apply andb_true_iff in Hs. destruct Hs as [Hc Hs'].
    simpl.
    destruct (is_linebreak c) eqn:Hbrk.
    + simpl in Hc. rewrite Hc.
      apply N.eqb_eq in Hc. subst c.
      simpl. f_equal.
      destruct s' as [|d s'']; [reflexivity|].
      simpl andb. cbv iota. apply (IH [] Hs').
    + assert (Hne : N.eqb c LF = false).
      { destruct (N.eqb_spec c LF) as [->|]; [discriminate Hbrk | reflexivity]. }
      rewrite Hne. apply (IH (c :: cur) Hs').
Qed.

Lemma trailing_newline_count (s : pystr) (started : bool) :
  newline_segments_from started (s ++ [LF]) = newlines (s ++ [LF]).
Proof.
  revert started. unfold newlines.
  induction s as [|c s' IH]; intros started; [reflexivity|].
  change ((c :: s') ++ [LF]) with (c :: (s' ++ [LF])).
  cbn [newline_segments_from filter].
  rewrite (N.eqb_sym LF c).
  destruct (N.eqb c LF); cbn [length]; now rewrite IH.
Qed.

Lemma sample_of_lines (l : list Path) (new : list Sample.t) :
  Forall2 (sample_of fs (repo_path self)) l new ->
  Forall (fun s => Sample.lines s
                   = Z.of_nat (length (splitlines (Sample.content s)))) new.
Proof.
  induction 1 as [|p s l' new' Hps _ IH]; constructor; [|exact IH].
  apply Hps.
Qed.

End Read.

(** C3. For candidate paths (paths beneath the repository root, as the scan
    yields them) [read_files] returns one sample per path whose open and
    decoding succeed, in the order of the input: each holds the text read,
    the path relative to the root and the text's line count. A path that
    cannot be read adds no sample, and the call returns all the same: of three
    files with one unreadable, two samples come back. *)
Theorem read_files_survivors (fs : FileSystem) (self : Utils)
        (filepaths : list Path) :
  Forall (fun p => beneath (repo_path self) p = true) filepaths ->
  Forall2 (sample_of fs (repo_path self))
          (filter (readable fs) filepaths)
          (returned (read_files fs self filepaths))
  /\ length (returned (read_files fs self filepaths))
     = length (filter (readable fs) filepaths).
Proof.
  intros Hall.
  destruct (read_loop_from fs self filepaths
              {| samples := []; total_lines := 0; printed := [] |} Hall)
    as (new & Hs & _ & Hf).
  unfold read_files, returned, read_loop. simpl in *.
  rewrite Hs. split; [exact Hf|].
  symmetry. eapply Forall2_length. exact Hf.
Qed.

Lemma read_files_survivors_witness :
  length (returned (read_files fs_corrupt utils0 [a_py; b_py; c_py])) = 2%nat
  /\ map Sample.path (returned (read_files fs_corrupt utils0 [a_py; b_py; c_py]))
     = [lit "a.py"; lit "sub/c.py"].
Proof.
  split.
  - destruct (read_files_survivors fs_corrupt utils0 [a_py; b_py; c_py])
      as [_ Hlen].
    + repeat constructor.
    + rewrite Hlen. reflexivity.
  - reflexivity.
Defined.

(** C4, as the code has it. For candidate paths, every sample's line count
    is the number of lines that [str.splitlines] cuts its text into: 0 for an
    empty text; for a text whose only line boundaries are newlines, the
    number of newline-delimited segments; and for such a text ending in a
    newline, the number of its newlines (nothing is counted after the final
    one). The total printed at the end is the sum of the samples' line
    counts. *)
Theorem read_files_line_counts (fs : FileSystem) (self : Utils)
        (filepaths : list Path) :
  Forall (fun p => beneath (repo_path self) p = true) filepaths ->
  Forall (fun s =>
            Sample.lines s = Z.of_nat (length (splitlines (Sample.content s)))
            /\ (Sample.content s = [] -> Sample.lines s = 0)
            /\ (only_newlines (Sample.content s) = true ->
                Sample.lines s = Z.of_nat (newline_segments (Sample.content s)))
            /\ (only_newlines (Sample.content s) = true ->
                forall text, Sample.content s = text ++ [LF] ->
                Sample.lines s = Z.of_nat (newlines (Sample.content s))))
         (returned (read_files fs self filepaths))
  /\ exists printed,
      effects (read_files fs self filepaths)
      = printed ++
        [Print (Total (sum_lines (returned (read_files fs self filepaths)))
                      (length (returned (read_files fs self filepaths))))].
Proof.
  intros Hall.
  destruct (read_loop_from fs self filepaths
              {| samples := []; total_lines := 0; printed := [] |} Hall)
    as (new & Hs & Ht & Hf).
  unfold read_files, returned, effects, read_loop. simpl in *.
  rewrite Hs, Ht. split.
  - apply sample_of_lines in Hf.
    eapply Forall_impl; [|exact Hf].
    intros s Hlines. cbv beta in Hlines.
    split; [exact Hlines|]. split; [|split].
    + intros Hempty. rewrite Hlines, Hempty. reflexivity.
    + intros Honly. rewrite Hlines. unfold splitlines, newline_segments.
      now rewrite (only_newlines_count _ [] Honly).
    + intros Honly text Htext. rewrite Hlines. unfold splitlines.
      rewrite (only_newlines_count _ [] Honly), Htext.
      now rewrite trailing_newline_count.
  - eexists. reflexivity.
Qed.

Lemma read_files_line_counts_witness :
  map Sample.lines (returned (read_files fs_corrupt utils0 [a_py; b_py; c_py]))
  = [2; 1]
  /\ exists printed,
      effects (read_files fs_corrupt utils0 [a_py; b_py; c_py])
      = printed ++ [Print (Total 3 2)].
Proof.
  destruct (read_files_line_counts fs_corrupt utils0 [a_py; b_py; c_py])
    as [_ Htotal].
  - repeat constructor.
  - split; [reflexivity | exact Htotal].
Defined.

(** C4 as the spec words it fails on a text with a form feed: "a", form
    feed, "b" has no newline, so it is one newline-delimited segment, and
    [splitlines] cuts it in two. *)
Lemma read_files_line_counts_counterexample :
  map Sample.lines (returned (read_files fs_form_feed utils0 [a_py])) = [2]
  /\ map (fun s => Z.of_nat (newline_segments (Sample.content s)))
         (returned (read_files fs_form_feed utils0 [a_py])) = [1].
Proof. split; reflexivity. Qed.

(** Outside the candidate paths: a readable file that is not beneath the
    root has its lines added to the total and yields no sample. *)
Example read_files_outside_root :
  read_files fs_corrupt utils0 [[lit "elsewhere"; lit "a.py"]]
  = ([], utils0,
     [Print (ErrorReading (lit "a.py") NotBeneathRoot); Print (Total 2 0)]).
Proof. reflexivity. Qed.

(** * Properties of the prompt *)

Section Text.

Lemma join_cons (sep x : pystr) (l : list pystr) :
  join sep (x :: l)
  = x ++ match l with [] => [] | _ :: _ => sep ++ join sep l end.
Proof. destruct l; simpl; [now rewrite app_nil_r | reflexivity]. Qed.

Lemma join_In (sep x : pystr) (l : list pystr) :
  In x l -> exists before after, join sep l = before ++ x ++ after.
Proof.
  induction l as [|y l IH]; intros Hin; [destruct Hin|].
  rewrite join_cons. destruct Hin as [->|Hin].
  - exists []. eexists. reflexivity.
  - destruct l as [|z l']; [destruct Hin|].
    destruct (IH Hin) as (before & after & ->).
    exists (y ++ sep ++ before), after.
    now rewrite <- !app_assoc.
Qed.

Lemma startswith_app (p r : pystr) : startswith (p ++ r) p = true.
Proof.
  induction p as [|c p IH]; [reflexivity|].
  simpl. now rewrite N.eqb_refl, IH.
Qed.

(** Two texts free of newlines, each followed by a newline: the newline
    tells where the first text ends. *)
Lemma split_at_newline (a b r1 r2 : pystr) :
  contains a [LF] = false -> contains b [LF] = false ->
  a ++ [LF] ++ r1 = b ++ [LF] ++ r2 ->
  a = b /\ r1 = r2.
Proof.
  revert b.
  induction a as [|x a IH]; intros [|y b] Ha Hb Heq; simpl in *.
  - injection Heq as ->. auto.
  - injection Heq as <- _. rewrite N.eqb_refl in Hb. discriminate.
  - injection Heq as -> _. rewrite N.eqb_refl in Ha. discriminate.
  - injection Heq as -> Heq.
    apply orb_false_iff in Ha, Hb.
    destruct (IH b (proj2 Ha) (proj2 Hb) Heq) as [-> ->]. auto.
Qed.

(** The same for texts free of the closing fence. *)
Lemma split_at_code_close (a b r1 r2 : pystr) :
  contains a code_close = false -> contains b code_close = false ->
  a ++ code_close ++ r1 = b ++ code_close ++ r2 ->
  a = b /\ r1 = r2.
Proof.
  revert b.
  induction a as [|x a IH]; intros [|y b] Ha Hb Heq.
  - change (code_close ++ r1 = code_close ++ r2) in Heq.
    apply app_inv_head in Heq. auto.
  - exfalso. vm_compute in Heq.
    destruct b as [|y1 [|y2 [|y3 b]]]; try discriminate Heq.
    injection Heq as <- <- <- <- _. discriminate Hb.
  - exfalso. vm_compute in Heq.
    destruct a as [|x1 [|x2 [|x3 a]]]; try discriminate Heq.
    injection Heq as -> -> -> -> _. discriminate Ha.
  - injection Heq as -> Heq.
    simpl in Ha, Hb. apply orb_false_iff in Ha, Hb.
    destruct (IH b (proj2 Ha) (proj2 Hb) Heq) as [-> ->]. auto.
Qed.

End Text.

Section Prompt.

Lemma combined_code_cons (s : Sample.t) (l : list Sample.t) :
  combined_code (s :: l)
  = file_marker ++ Sample.path s ++ [LF]
    ++ (lit "```python" ++ [LF]) ++ Sample.content s ++ code_close
    ++ following l.
Proof.
  unfold combined_code. simpl map. rewrite join_cons.
  unfold render, code_open, following.
  destruct l; simpl map; rewrite <- ?app_assoc; reflexivity.
Qed.

Lemma combined_code_In (s : Sample.t) (l : list Sample.t) :
  In s l -> exists before after, combined_code l = before ++ render s ++ after.
Proof.
  intros Hin. apply join_In. now apply in_map.
Qed.

Lemma combined_code_inj (l1 l2 : list Sample.t) :
  forallb plain l1 = true -> forallb plain l2 = true ->
  combined_code l1 = combined_code l2 ->
  map shown l1 = map shown l2.
Proof.
  revert l2.
  induction l1 as [|s1 l1 IH]; intros [|s2 l2] H1 H2 Heq.
  - reflexivity.
  - rewrite combined_code_cons in Heq. discriminate Heq.
  - rewrite combined_code_cons in Heq. discriminate Heq.
  - rewrite !combined_code_cons in Heq.
    simpl in H1, H2.
    apply andb_true_iff in H1, H2.
    destruct H1 as [Hs1 H1], H2 as [Hs2 H2].
    unfold plain in Hs1, Hs2.
    apply andb_true_iff in Hs1, Hs2.
    destruct Hs1 as [Hp1 Hc1], Hs2 as [Hp2 Hc2].
    apply negb_true_iff in Hp1, Hc1, Hp2, Hc2.
    apply app_inv_head in Heq.
    apply split_at_newline in Heq; [|assumption|assumption].
    destruct Heq as [Hpath Heq].
    apply app_inv_head in Heq.
    apply split_at_code_close in Heq; [|assumption|assumption].
    destruct Heq as [Htext Heq].
    simpl map. f_equal.
    + unfold shown. now rewrite Hpath, Htext.
    + destruct l1 as [|t1 l1], l2 as [|t2 l2]; try discriminate Heq.
      * reflexivity.
      * apply IH; [assumption|assumption|].
        unfold following in Heq.
        now apply app_inv_head in Heq.
Qed.

End Prompt.

Lemma statistics_quiet (u : Usage) :
  service_calls (snd (statistics u)) = []
  /\ filter is_write (snd (statistics u)) = [].
Proof.
  unfold statistics.
  destruct (input_tokens u); [|auto].
  destruct (output_tokens u); [|auto].
  destruct (total_tokens u); auto.
Qed.

Lemma statistics_complete (u : Usage) :
  fst (statistics u) = None <-> usage_complete u = true.
Proof.
  unfold statistics, usage_complete.
  destruct (input_tokens u); [|split; discriminate].
  destruct (output_tokens u); [|split; discriminate].
  destruct (total_tokens u); split; try discriminate; reflexivity.
Qed.

(** C5. The prompt is a function of the samples alone: whatever the object
    holds and whatever the service answers, [extraction] sends the same
    single request, whose only message is the prompt built from the samples
    in their order; samples that show the same paths and texts give the same
    prompt; and every sample's text stands in it whole. *)
Theorem extraction_prompt_deterministic
        (client1 client2 : Client) (self1 self2 : Utils)
        (code_samples : list Sample.t) :
  service_calls (effects (extraction client1 self1 code_samples))
  = [request code_samples]
  /\ service_calls (effects (extraction client2 self2 code_samples))
     = service_calls (effects (extraction client1 self1 code_samples))
  /\ messages (request code_samples)
     = [{| role := user; content := prompt code_samples |}]
  /\ (forall other_samples,
         map shown other_samples = map shown code_samples ->
         prompt other_samples = prompt code_samples)
  /\ (forall s, In s code_samples ->
                exists before after,
                  prompt code_samples = before ++ Sample.content s ++ after).
Proof.
  assert (Hcalls : forall client self,
             service_calls (effects (extraction client self code_samples))
             = [request code_samples]).
  { intros client self. unfold extraction, effects.
    destruct (client (request code_samples)) as [e|message]; [reflexivity|].
    destruct (blocks message); [reflexivity|].
    simpl. now rewrite (proj1 (statistics_quiet _)). }
  split; [apply Hcalls|].
  split; [now rewrite !Hcalls|].
  split; [reflexivity|].
  split.
  - intros other_samples Hshown.
    unfold prompt, combined_code. do 2 f_equal.
    assert (Hrender : forall l, map render l
                                = map (fun ps => file_marker ++ fst ps ++ code_open
                                                 ++ snd ps ++ code_close)
                                      (map shown l)).
    { intros l. rewrite map_map. reflexivity. }
    now rewrite !Hrender, Hshown.
  - intros s Hin.
    destruct (combined_code_In s code_samples Hin) as (before & after & Heq).
    unfold prompt. rewrite Heq. unfold render.
    exists (prompt_head ++ before ++ file_marker ++ Sample.path s ++ code_open).
    exists (code_close ++ after ++ prompt_tail).
    now rewrite <- !app_assoc.
Qed.

Lemma extraction_prompt_deterministic_witness :
  exists before after,
    prompt two_samples = before ++ lit "y = 2" ++ after.
Proof.
  destruct (extraction_prompt_deterministic client_ok client_down utils0
              (init [lit "elsewhere"] (lit "other.md")) two_samples)
    as (_ & _ & _ & _ & Hwhole).
  apply (Hwhole (sample "b.py" (lit "y = 2"))).
  simpl. auto.
Defined.

(** C6, as the code has it. Every sample is rendered in the prompt as the
    marker "### File: " and its path, a line "```python", its text in full,
    and a line "```". Where no path holds a newline and no text holds a
    newline followed by "```", the prompt tells the samples apart: two
    sequences of such samples with the same prompt show the same paths and
    texts in the same order. *)
Theorem prompt_renders_every_sample (code_samples : list Sample.t) :
  (forall s, In s code_samples ->
             exists before after,
               prompt code_samples
               = before ++ (lit "### File: " ++ Sample.path s ++ [LF]
                            ++ lit "```python" ++ [LF]
                            ++ Sample.content s ++ [LF] ++ lit "```") ++ after)
  /\ (forall other_samples,
         forallb plain code_samples = true ->
         forallb plain other_samples = true ->
         prompt code_samples = prompt other_samples ->
         map shown code_samples = map shown other_samples).
Proof.
  split.
  - intros s Hin.
    destruct (combined_code_In s code_samples Hin) as (before & after & Heq).
    exists (prompt_head ++ before), (after ++ prompt_tail).
    unfold prompt. rewrite Heq. unfold render, file_marker, code_open, code_close.
    now rewrite <- !app_assoc.
  - intros other_samples H1 H2 Heq.
    unfold prompt in Heq.
    apply app_inv_head in Heq. apply app_inv_tail in Heq.
    now apply combined_code_inj.
Qed.

Lemma prompt_renders_every_sample_witness :
  (exists before after,
      prompt two_samples
      = before ++ (lit "### File: " ++ lit "b.py" ++ [LF]
                   ++ lit "```python" ++ [LF]
                   ++ lit "y = 2" ++ [LF] ++ lit "```") ++ after)
  /\ map shown two_samples = map shown two_samples_uncounted.
Proof.
  destruct (prompt_renders_every_sample two_samples) as [Hin Hinj].
  split.
  - apply (Hin (sample "b.py" (lit "y = 2"))). simpl. auto.
  - apply Hinj; reflexivity.
Defined.

(** C6 as the spec words it fails on a text that holds the wrapping: one
    file whose text goes on with a closing fence and the marker of a second
    file gives the very prompt of two files. *)
Lemma prompt_renders_every_sample_counterexample :
  prompt one_sample_in_disguise = prompt two_samples
  /\ map shown one_sample_in_disguise <> map shown two_samples.
Proof. split; [reflexivity | discriminate]. Qed.

(** * Properties of the session: extraction and save_draft *)

Section Session.

Lemma other_involutive (r : Role) : other (other r) = r.
Proof. now destruct r. Qed.

Lemma role_after_succ (r : Role) (n : nat) :
  role_after r (S n) = role_after (other r) n.
Proof.
  unfold role_after. rewrite Nat.even_succ, <- Nat.negb_even.
  destruct (Nat.even n); simpl; [reflexivity | now rewrite other_involutive].
Qed.

Lemma alternates_app (r : Role) (h tl : list Turn) :
  alternates r (h ++ tl)
  = alternates r h && alternates (role_after r (length h)) tl.
Proof.
  revert r.
  induction h as [|t h IH]; intros r; [reflexivity|].
  cbn [app alternates length].
  now rewrite IH, role_after_succ, andb_assoc.
Qed.

Lemma paired_exchange (h : list Turn) (p t : pystr) :
  paired h ->
  paired ((h ++ [{| role := user; content := p |}])
            ++ [{| role := assistant; content := t |}]).
Proof.
  intros [Halt Heven]. rewrite <- app_assoc. split.
  - rewrite alternates_app, Halt. unfold role_after. rewrite Heven.
    reflexivity.
  - rewrite length_app. simpl length.
    replace (length h + 2)%nat with (S (S (length h))) by lia.
    exact Heven.
Qed.

Lemma extraction_paired (client : Client) (self : Utils)
      (code_samples : list Sample.t) :
  paired (conversation_history self) ->
  paired (conversation_history
            (object_after (extraction client self code_samples))).
Proof.
  intros Hp. unfold extraction, object_after.
  destruct (client (request code_samples)) as [e|message]; [exact Hp|].
  destruct (blocks message) as [|text others]; [exact Hp|].
  simpl. now apply paired_exchange.
Qed.

Lemma save_draft_object (fs : FileSystem) (self : Utils)
      (content : option pystr) :
  object_after (save_draft fs self content) = self.
Proof.
  unfold save_draft, object_after.
  destruct content as [c|]; [|destruct (current_draft self) as [d|]];
    try reflexivity;
    destruct (open_w fs (output_file self)); try reflexivity;
    destruct (write_w fs (output_file self) _); reflexivity.
Qed.

Lemma step_paired (self self' : Utils) :
  step self self' ->
  paired (conversation_history self) -> paired (conversation_history self').
Proof.
  intros Hstep Hp. destruct Hstep.
  - exact Hp.
  - exact Hp.
  - now apply extraction_paired.
  - now rewrite save_draft_object.
Qed.

Lemma reachable_paired (self : Utils) :
  reachable self -> paired (conversation_history self).
Proof.
  induction 1 as [root out|self self' _ IH Hstep].
  - split; reflexivity.
  - now apply (step_paired self self').
Qed.

End Session.

(** C7. On every object that the methods can produce from a new one, the
    history alternates [user] and [assistant] turns and starts with a [user]
    turn; and one successful [extraction] on an empty history leaves exactly
    two turns, the [user] turn with the prompt and the [assistant] turn with
    the text that the service returned. The two turns are there as soon as
    the answer has a content block; the extraction returns its text when the
    answer also has its usage counters. *)
Theorem history_alternates :
  (forall self, reachable self ->
                alternates user (conversation_history self) = true)
  /\ (forall client self code_samples message text others,
         conversation_history self = [] ->
         client (request code_samples) = inr message ->
         blocks message = text :: others ->
         (usage_complete (usage message) = true ->
          returned (extraction client self code_samples) = inr text)
         /\ conversation_history
              (object_after (extraction client self code_samples))
            = [{| role := user; content := prompt code_samples |};
               {| role := assistant; content := text |}]
         /\ length (conversation_history
                      (object_after (extraction client self code_samples)))
            = 2%nat)
  /\ (forall client self code_samples text,
         conversation_history self = [] ->
         returned (extraction client self code_samples) = inr text ->
         conversation_history
           (object_after (extraction client self code_samples))
         = [{| role := user; content := prompt code_samples |};
            {| role := assistant; content := text |}]
         /\ length (conversation_history
                      (object_after (extraction client self code_samples)))
            = 2%nat).
Proof.
  split; [|split].
  - intros self Hreach. now apply reachable_paired.
  - intros client self code_samples message text others Hempty Hcall Hblocks.
    unfold extraction, returned, object_after.
    rewrite Hcall, Hblocks. simpl. rewrite Hempty.
    split; [|auto].
    intros Hcomplete. apply statistics_complete in Hcomplete.
    now rewrite Hcomplete.
  - intros client self code_samples text Hempty.
    unfold extraction, returned, object_after.
    destruct (client (request code_samples)) as [e|message]; [discriminate|].
    destruct (blocks message) as [|first others]; [discriminate|].
    simpl. rewrite Hempty.
    destruct (fst (statistics (usage message))); [discriminate|].
    intros [= <-]. auto.
Qed.

Lemma history_alternates_witness :
  alternates user
    (conversation_history (object_after (extraction client_ok utils0 two_samples)))
  = true
  /\ conversation_history (object_after (extraction client_ok utils0 two_samples))
     = [{| role := user; content := prompt two_samples |};
        {| role := assistant; content := lit "# Style guide" |}].
Proof.
  destruct history_alternates as (Halt & Hone & _).
  split.
  - apply Halt. eapply reachable_step.
    + apply (reachable_init repo (lit "guide.md")).
    + apply (step_extraction client_ok utils0 two_samples).
  - destruct (Hone client_ok utils0 two_samples
                   guide_message (lit "# Style guide") [])
      as (_ & Hhist & _); [reflexivity | reflexivity | reflexivity |].
    exact Hhist.
Defined.

(** C8, as the code has it. [extraction] calls the service first, with the
    one request built from the samples, and appends nothing before the call.
    When the call raises, or the answer has no content block, the exception
    leaves the method and the object is as it was: no turn appended, the
    draft untouched. When the extraction succeeds, the draft is the text of
    the answer's first content block, and a [user] turn with the prompt, then
    an [assistant] turn with that text, have been appended; it does succeed
    on an answer that has a content block and its usage counters. *)
Theorem extraction_outcome (client : Client) (self : Utils)
        (code_samples : list Sample.t) :
  (exists rest, effects (extraction client self code_samples)
                = ServiceCall (request code_samples) :: rest)
  /\ (forall text,
         returned (extraction client self code_samples) = inr text ->
         (exists message others,
             client (request code_samples) = inr message
             /\ blocks message = text :: others)
         /\ current_draft (object_after (extraction client self code_samples))
            = Some text
         /\ conversation_history
              (object_after (extraction client self code_samples))
            = conversation_history self
              ++ [{| role := user; content := prompt code_samples |};
                  {| role := assistant; content := text |}])
  /\ (forall message text others,
         client (request code_samples) = inr message ->
         blocks message = text :: others ->
         usage_complete (usage message) = true ->
         returned (extraction client self code_samples) = inr text)
  /\ (forall e, client (request code_samples) = inl e ->
                returned (extraction client self code_samples)
                = inl (ServiceError e)
                /\ object_after (extraction client self code_samples) = self)
  /\ (forall message,
         client (request code_samples) = inr message ->
         blocks message = [] ->
         returned (extraction client self code_samples) = inl IndexError
         /\ object_after (extraction client self code_samples) = self).
Proof.
  unfold extraction, returned, object_after, effects.
  split; [|split; [|split; [|split]]].
  - destruct (client (request code_samples)) as [e|message];
      [eexists; reflexivity|].
    destruct (blocks message); eexists; reflexivity.
  - intros text.
    destruct (client (request code_samples)) as [e|message]; [discriminate|].
    destruct (blocks message) as [|first others] eqn:Hblocks; [discriminate|].
    simpl.
    destruct (fst (statistics (usage message))); [discriminate|].
    intros [= <-]. split; [|split].
    + exists message, others. auto.
    + reflexivity.
    + now rewrite <- app_assoc.
  - intros message text others Hcall Hblocks Hcomplete.
    rewrite Hcall, Hblocks. simpl.
    apply statistics_complete in Hcomplete. now rewrite Hcomplete.
  - intros e Hcall. now rewrite Hcall.
  - intros message Hcall Hblocks. now rewrite Hcall, Hblocks.
Qed.

Lemma extraction_outcome_witness :
  object_after (extraction client_down utils0 two_samples) = utils0
  /\ object_after (extraction client_empty utils0 two_samples) = utils0
  /\ returned (extraction client_ok utils0 two_samples)
     = inr (lit "# Style guide")
  /\ current_draft (object_after (extraction client_ok utils0 two_samples))
     = Some (lit "# Style guide").
Proof.
  destruct (extraction_outcome client_down utils0 two_samples)
    as (_ & _ & _ & Hdown & _).
  destruct (extraction_outcome client_empty utils0 two_samples)
    as (_ & _ & _ & _ & Hempty).
  destruct (extraction_outcome client_ok utils0 two_samples)
    as (_ & Hdone & Hok & _ & _).
  assert (Hreturned : returned (extraction client_ok utils0 two_samples)
                      = inr (lit "# Style guide")).
  { apply (Hok guide_message (lit "# Style guide") []); reflexivity. }
  split; [|split; [|split]].
  - apply (Hdown (lit "Connection error.")). reflexivity.
  - apply (Hempty empty_message); reflexivity.
  - exact Hreturned.
  - apply (Hdone (lit "# Style guide") Hreturned).
Defined.

(** C8 as the spec words it fails when the service cannot be reached: no
    [user] turn was appended before the call, so the history is still empty
    after the failure. *)
Lemma extraction_outcome_counterexample :
  returned (extraction client_down utils0 two_samples)
  = inl (ServiceError (lit "Connection error."))
  /\ conversation_history (object_after (extraction client_down utils0 two_samples))
     = []
  /\ conversation_history (object_after (extraction client_down utils0 two_samples))
     <> conversation_history utils0
        ++ [{| role := user; content := prompt two_samples |}].
Proof. split; [reflexivity | split; [reflexivity | discriminate]]. Qed.

(** C9. With no content given and no draft held, [save_draft] prints "No
    content to save!" and returns: no file is opened or written, no exception
    leaves the method, and the object is as it was. *)
Theorem save_draft_nothing_to_save (fs : FileSystem) (self : Utils) :
  current_draft self = None ->
  save_draft fs self None = (tt, self, [Print NoContentToSave])
  /\ existsb is_write (effects (save_draft fs self None)) = false.
Proof.
  intros Hnone. unfold save_draft. rewrite Hnone. split; reflexivity.
Qed.

Lemma save_draft_nothing_to_save_witness :
  save_draft fs_full utils0 None = (tt, utils0, [Print NoContentToSave])
  /\ existsb is_write (effects (save_draft fs_full utils0 None)) = false.
Proof.
  apply (save_draft_nothing_to_save fs_full utils0). reflexivity.
Defined.

(** C10. [save_draft] assigns no field: whatever the content given, the
    draft held and the fate of the write, the history and the draft are after
    the call what they were before it. *)
Theorem save_draft_frame (fs : FileSystem) (self : Utils)
        (content : option pystr) :
  conversation_history (object_after (save_draft fs self content))
  = conversation_history self
  /\ current_draft (object_after (save_draft fs self content))
     = current_draft self.
Proof. now rewrite save_draft_object. Qed.

(** A write that fails after the file was opened: the file is left emptied,
    the failure is printed, and the object is untouched. *)
Example save_draft_write_fails :
  save_draft fs_full utils0 (Some (lit "# Guide"))
  = (tt, utils0,
     [FileOpened (lit "guide.md");
      Print (ErrorSaving (lit "No space left on device"))]).
Proof. reflexivity. Qed.

(** * Further properties of scan_repository *)

Lemma scan_matches_firstn (max_files : Z) (matches code_files : list Path) :
  scan_matches max_files code_files matches
  = code_files
    ++ firstn (Z.to_nat (Z.max 1 (max_files - Z.of_nat (length code_files))))
              matches.
Proof.
  revert code_files.
  induction matches as [|p rest IH]; intros code_files.
  - simpl. now rewrite firstn_nil, app_nil_r.
  - simpl scan_matches.
    destruct (Z.to_nat (Z.max 1 (max_files - Z.of_nat (length code_files))))
      as [|k] eqn:Hk; [lia|].
    simpl firstn.
    destruct (Z.geb_spec (Z.of_nat (length (code_files ++ [p]))) max_files)
      as [Hcap|Hno]; rewrite length_app in *; simpl length in *.
    + assert (k = 0%nat) as -> by lia.
      now rewrite firstn_O.
    + rewrite IH, <- app_assoc, length_app. simpl.
      do 3 f_equal. lia.
Qed.

Lemma scan_fold_chunks (fs : FileSystem) (root : Path) (max_files : Z)
      (extensions : list pystr) (code_files : list Path) :
  exists chunks,
    scan_fold fs root max_files extensions code_files
    = code_files ++ concat chunks
    /\ Forall2 (fun ext chunk => exists k, chunk = firstn k (rglob fs root ext))
               extensions chunks.
Proof.
  revert code_files.
  induction extensions as [|ext rest IH]; intros code_files.
  - exists []. simpl. rewrite app_nil_r. split; [reflexivity | constructor].
  - unfold scan_fold in *. simpl fold_left.
    rewrite scan_matches_firstn.
    destruct (IH (code_files
                  ++ firstn (Z.to_nat (Z.max 1 (max_files
                                                - Z.of_nat (length code_files))))
                            (rglob fs root ext)))
      as (chunks & -> & Hall).
    eexists (_ :: chunks). split.
    + simpl. now rewrite <- app_assoc.
    + constructor; [eexists; reflexivity | exact Hall].
Qed.

(** With one extension the scan returns the first matches, as many as
    [max_files] allows and never fewer than one when there is a match: the
    cap holds for every [max_files >= 1]. *)
Theorem scan_repository_single_extension (fs : FileSystem) (self : Utils)
        (max_files : Z) (ext : pystr) :
  returned (scan_repository fs self max_files (Some [ext]))
  = firstn (Z.to_nat (Z.max 1 max_files)) (rglob fs (repo_path self) ext)
  /\ Z.of_nat (length (returned (scan_repository fs self max_files (Some [ext]))))
     <= Z.max 1 max_files.
Proof.
  assert (Heq : returned (scan_repository fs self max_files (Some [ext]))
                = firstn (Z.to_nat (Z.max 1 max_files))
                         (rglob fs (repo_path self) ext)).
  { unfold scan_repository, returned, scan_extensions, scan_fold. simpl.
    rewrite scan_matches_firstn. simpl. now rewrite Z.sub_0_r. }
  split; [exact Heq|].
  rewrite Heq.
  pose proof (firstn_le_length (Z.to_nat (Z.max 1 max_files))
                               (rglob fs (repo_path self) ext)).
  lia.
Qed.

(** With several extensions the cap can be passed by at most one path per
    extension after the first: the scan returns at most
    [max 1 max_files + (number of extensions - 1)] paths. *)
Theorem scan_repository_overshoot (fs : FileSystem) (self : Utils)
        (max_files : Z) (extensions : list pystr) :
  Z.of_nat (length (returned (scan_repository fs self max_files (Some extensions))))
  <= Z.max 1 max_files + Z.max 0 (Z.of_nat (length extensions) - 1).
Proof.
  unfold scan_repository, returned, scan_extensions. simpl.
  destruct extensions as [|ext rest]; [simpl; lia|].
  unfold scan_fold. simpl fold_left.
  pose proof (scan_fold_length fs (repo_path self) max_files rest
                (scan_matches max_files [] (rglob fs (repo_path self) ext))) as Hrest.
  pose proof (scan_matches_length max_files (rglob fs (repo_path self) ext) [])
    as Hfirst.
  unfold scan_fold in Hrest. simpl length in *. lia.
Qed.

(** The extensions are not interleaved: the result is made of one run of
    paths per extension, in the order of the extensions, each run being the
    first matches of its extension in the order of the walk. *)
Theorem scan_repository_runs (fs : FileSystem) (self : Utils)
        (max_files : Z) (extensions : list pystr) :
  exists runs,
    returned (scan_repository fs self max_files (Some extensions)) = concat runs
    /\ Forall2 (fun ext run =>
                  exists k, run = firstn k (rglob fs (repo_path self) ext))
               extensions runs.
Proof.
  unfold scan_repository, returned, scan_extensions. simpl.
  destruct (scan_fold_chunks fs (repo_path self) max_files extensions [])
    as (chunks & Heq & Hall).
  exists chunks. split; [exact Heq | exact Hall].
Qed.

Lemma runs_from_matches (fs : FileSystem) (root : Path)
      (extensions : list pystr) (runs : list (list Path)) :
  Forall2 (fun ext run => exists k, run = firstn k (rglob fs root ext))
          extensions runs ->
  Forall (fun p => exists ext, In ext extensions /\ In p (rglob fs root ext))
         (concat runs).
Proof.
  induction 1 as [|ext run extensions runs [k ->] _ IH]; simpl.
  - constructor.
  - apply Forall_app. split.
    + apply Forall_forall. intros p Hp.
      exists ext. split; [now left|].
      revert Hp. generalize (rglob fs root ext). clear.
      intros l. revert l. induction k as [|k IHk]; intros [|x l] Hp;
        simpl in Hp; try contradiction.
      destruct Hp as [->|Hp]; [now left | right; auto].
    + eapply Forall_impl; [|exact IH].
      intros p (e & He & Hp). exists e. split; [now right | exact Hp].
Qed.

(** The scan never returns anything else than what [rglob] yields for the
    pattern of one of the extensions, and every path returned lies beneath
    the root. For an extension that is a literal suffix, the path is an entry
    of the tree whose name ends with the extension. *)
Theorem scan_repository_sound (fs : FileSystem) (self : Utils)
        (max_files : Z) (extensions : list pystr) :
  Forall (fun p => beneath (repo_path self) p = true
                   /\ exists ext,
                       In ext extensions
                       /\ In p (rglob fs (repo_path self) ext)
                       /\ (literal ext = true ->
                           In p (entries fs (repo_path self))
                           /\ endswith (name p) ext = true))
         (returned (scan_repository fs self max_files (Some extensions))).
Proof.
  destruct (scan_fold_chunks fs (repo_path self) max_files extensions [])
    as (chunks & Heq & Hall).
  unfold scan_repository, returned, scan_extensions. simpl.
  simpl in Heq. rewrite Heq.
  eapply Forall_impl; [|exact (runs_from_matches _ _ _ _ Hall)].
  intros p (ext & Hext & Hp). cbv beta.
  split.
  - destruct (rglob_from_root _ _ _ _ Hp) as (rel & ->).
    unfold beneath. now rewrite relative_to_app.
  - exists ext. split; [exact Hext|]. split; [exact Hp|].
    intros Hlit. rewrite (rglob_literal _ _ _ Hlit) in Hp.
    apply filter_In in Hp. exact Hp.
Qed.



(** * Further properties of read_files *)

Lemma filter_snoc {A : Type} (f : A -> bool) (l : list A) (x : A) :
  filter f (l ++ [x]) = filter f l ++ (if f x then [x] else []).
Proof. rewrite filter_app. simpl. now destruct (f x). Qed.

Lemma sum_lines_snoc (l : list Sample.t) (s : Sample.t) :
  sum_lines (l ++ [s]) = sum_lines l + Sample.lines s.
Proof.
  unfold sum_lines. induction l as [|x l IH]; simpl; [lia|].
  rewrite IH. lia.
Qed.

(** What the loop keeps, whatever the paths: one line printed per path, an
    error line for each path without a sample, the lines of every readable
    text in the total, and in every sample the line count of its text. *)
Lemma read_loop_account (fs : FileSystem) (self : Utils)
      (filepaths : list Path) (st : ReadState) :
  let st' := fold_left (read_file fs self) filepaths st in
  (length (printed st') = length (printed st) + length filepaths)%nat
  /\ (length (samples st') + length (filter is_error (printed st'))
      = length (samples st) + length (filter is_error (printed st))
        + length filepaths)%nat
  /\ total_lines st'
     = total_lines st + fold_right Z.add 0 (map (text_lines fs) filepaths)
  /\ (Forall (fun s => Sample.lines s
                       = Z.of_nat (length (splitlines (Sample.content s))))
             (samples st) ->
      Forall (fun s => Sample.lines s
                       = Z.of_nat (length (splitlines (Sample.content s))))
             (samples st')).
Proof.
  revert st.
  induction filepaths as [|p rest IH]; intros st; simpl.
  - repeat split; auto; lia.
  - destruct (IH (read_file fs self st p)) as (Hp & Hs & Ht & Hl).
    assert (Hone :
      (length (printed (read_file fs self st p)) = S (length (printed st)))%nat
      /\ (length (samples (read_file fs self st p))
          + length (filter is_error (printed (read_file fs self st p)))
          = S (length (samples st) + length (filter is_error (printed st))))%nat
      /\ total_lines (read_file fs self st p)
         = total_lines st + text_lines fs p
      /\ (Forall (fun s => Sample.lines s
                           = Z.of_nat (length (splitlines (Sample.content s))))
                 (samples st) ->
          Forall (fun s => Sample.lines s
                           = Z.of_nat (length (splitlines (Sample.content s))))
                 (samples (read_file fs self st p)))).
    { unfold read_file, text_lines.
      destruct (read_text fs p) as [text|e];
        [destruct (relative_to p (repo_path self)) as [rel|]|];
        simpl; rewrite ?filter_snoc, ?length_app; simpl;
        repeat split; auto; try lia.
      intros Hall. apply Forall_app. split; [exact Hall|].
      constructor; [reflexivity | constructor]. }
    destruct Hone as (Hp1 & Hs1 & Ht1 & Hl1).
    repeat split.
    + rewrite Hp, Hp1. lia.
    + rewrite Hs, Hs1. lia.
    + rewrite Ht, Ht1. lia.
    + intros Hall. apply Hl, Hl1, Hall.
Qed.

Lemma read_loop_sum (fs : FileSystem) (self : Utils)
      (filepaths : list Path) (st : ReadState) :
  sum_lines (samples (fold_left (read_file fs self) filepaths st))
  - sum_lines (samples st)
  <= total_lines (fold_left (read_file fs self) filepaths st) - total_lines st.
Proof.
  revert st.
  induction filepaths as [|p rest IH]; intros st; simpl; [lia|].
  specialize (IH (read_file fs self st p)).
  assert (Hone : sum_lines (samples (read_file fs self st p))
                 - sum_lines (samples st)
                 <= total_lines (read_file fs self st p) - total_lines st).
  { unfold read_file.
    destruct (read_text fs p) as [text|e];
      [destruct (relative_to p (repo_path self)) as [rel|]|];
      simpl; rewrite ?sum_lines_snoc; simpl; lia. }
  lia.
Qed.

(** Every path is accounted for: [read_files] prints one line per path and
    the total, and each path gives either a sample or an error line. *)
Theorem read_files_accounts (fs : FileSystem) (self : Utils)
        (filepaths : list Path) :
  length (effects (read_files fs self filepaths)) = S (length filepaths)
  /\ (length (returned (read_files fs self filepaths))
      + length (filter is_error (effects (read_files fs self filepaths)))
      = length filepaths)%nat.
Proof.
  destruct (read_loop_account fs self filepaths
              {| samples := []; total_lines := 0; printed := [] |})
    as (Hp & Hs & _ & _).
  unfold read_files, returned, effects, read_loop. simpl in *.
  split.
  - rewrite length_app, Hp. simpl. lia.
  - rewrite filter_snoc. simpl. rewrite app_nil_r. exact Hs.
Qed.

(** Whatever the paths, the total printed is the number of lines of all the
    texts that could be read; it is never less than the sum of the samples'
    line counts, and more when a readable file outside the root gave no
    sample. *)
Theorem read_files_total (fs : FileSystem) (self : Utils)
        (filepaths : list Path) :
  (exists printed,
      effects (read_files fs self filepaths)
      = printed
        ++ [Print (Total (fold_right Z.add 0 (map (text_lines fs) filepaths))
                         (length (returned (read_files fs self filepaths))))])
  /\ sum_lines (returned (read_files fs self filepaths))
     <= fold_right Z.add 0 (map (text_lines fs) filepaths).
Proof.
  destruct (read_loop_account fs self filepaths
              {| samples := []; total_lines := 0; printed := [] |})
    as (_ & _ & Ht & _).
  pose proof (read_loop_sum fs self filepaths
                {| samples := []; total_lines := 0; printed := [] |}) as Hsum.
  unfold read_files, returned, effects, read_loop. simpl in *.
  split.
  - eexists. rewrite Ht. reflexivity.
  - unfold sum_lines in Hsum at 2. simpl in Hsum. lia.
Qed.

Lemma splitlines_from_started (s cur : pystr) :
  cur <> [] -> (1 <= length (splitlines_from cur s))%nat.
Proof.
  revert cur.
  induction s as [|c s' IH]; intros cur Hcur; simpl.
  - destruct cur; [contradiction | simpl; lia].
  - destruct (is_linebreak c); [simpl; lia|].
    apply IH. discriminate.
Qed.

Lemma splitlines_from_length (n : nat) :
  forall (s cur : pystr),
    (length s <= n)%nat ->
    (length (splitlines_from cur s)
     <= length s + match cur with [] => 0 | _ :: _ => 1 end)%nat.
Proof.
  induction n as [|n IH]; intros s cur Hn.
  - destruct s; [|simpl in Hn; lia]. destruct cur; simpl; lia.
  - destruct s as [|c s']; [destruct cur; simpl; lia|].
    simpl in Hn. simpl splitlines_from.
    destruct (is_linebreak c).
    + destruct s' as [|d s''].
      * simpl. destruct cur; lia.
      * destruct (N.eqb c CR && N.eqb d LF).
        -- pose proof (IH s'' [] ltac:(simpl in Hn; lia)) as H.
           simpl in *. destruct cur; lia.
        -- pose proof (IH (d :: s'') [] ltac:(simpl in *; lia)) as H.
           simpl in *. destruct cur; lia.
    + pose proof (IH s' (c :: cur) ltac:(lia)) as H.
      simpl in *. destruct cur; lia.
Qed.

(** A sample's line count is that of its text, whatever the paths given: it
    is 0 for an empty text only, and it never exceeds the number of
    characters of the text. *)
Theorem read_files_line_count_bounds (fs : FileSystem) (self : Utils)
        (filepaths : list Path) :
  Forall (fun s =>
            Sample.lines s = Z.of_nat (length (splitlines (Sample.content s)))
            /\ (Sample.lines s = 0 <-> Sample.content s = [])
            /\ 0 <= Sample.lines s <= Z.of_nat (length (Sample.content s)))
         (returned (read_files fs self filepaths)).
Proof.
  destruct (read_loop_account fs self filepaths
              {| samples := []; total_lines := 0; printed := [] |})
    as (_ & _ & _ & Hl).
  unfold read_files, returned, read_loop. simpl in *.
  eapply Forall_impl; [|apply Hl; constructor].
  intros s Hs. cbv beta in Hs. rewrite Hs.
  split; [reflexivity|].
  pose proof (splitlines_from_length (length (Sample.content s))
                (Sample.content s) [] (le_n _)) as Hle.
  split; [split|].
  - intros Hzero. destruct (Sample.content s) as [|c text]; [reflexivity|].
    exfalso. unfold splitlines in Hzero. simpl in Hzero.
    destruct (is_linebreak c).
    + simpl in Hzero. lia.
    + pose proof (splitlines_from_started text [c] ltac:(discriminate)). lia.
  - intros ->. reflexivity.
  - unfold splitlines in *. lia.
Qed.

(** The two first steps composed: reading what the scan returned gives one
    sample per scanned path that can be read, in the order of the scan, with
    the path relative to the root. *)
Theorem read_files_after_scan (fs : FileSystem) (self : Utils)
        (max_files : Z) (extensions : option (list pystr)) :
  Forall2 (sample_of fs (repo_path self))
          (filter (readable fs)
                  (returned (scan_repository fs self max_files extensions)))
          (returned (read_files fs
                       (object_after (scan_repository fs self max_files extensions))
                       (returned (scan_repository fs self max_files extensions)))).
Proof.
  pose proof (scan_repository_beneath fs self max_files extensions) as Hall.
  destruct (read_loop_from fs self
              (returned (scan_repository fs self max_files extensions))
              {| samples := []; total_lines := 0; printed := [] |} Hall)
    as (new & Hs & _ & Hf).
  unfold read_files, returned, read_loop, object_after in *. simpl in *.
  rewrite Hs. exact Hf.
Qed.

(** * Further properties of the prompt and of the session *)

Lemma join_length (sep : pystr) (l : list pystr) :
  length (join sep l)
  = (list_sum (map (@length N) l) + length sep * (length l - 1))%nat.
Proof.
  induction l as [|x l IH]; [simpl; lia|].
  rewrite join_cons. destruct l as [|y l'].
  - simpl. rewrite app_nil_r. lia.
  - rewrite !length_app, IH. simpl length. simpl map. simpl list_sum. lia.
Qed.

(** Nothing is cut and nothing is added but the wrapping: the prompt has the
    1901 characters of the template, for every sample its path, its text and
    25 characters of marker and fences, and 2 characters between two
    samples. *)
Theorem prompt_length (code_samples : list Sample.t) :
  length (prompt code_samples)
  = (1901
     + list_sum (map (fun s => length (Sample.path s)
                               + length (Sample.content s) + 25)
                     code_samples)
     + 2 * (length code_samples - 1))%nat.
Proof.
  unfold prompt, combined_code.
  rewrite !length_app, join_length, length_map, map_map.
  assert (Hrender : forall s, length (render s)
                              = (length (Sample.path s)
                                 + length (Sample.content s) + 25)%nat).
  { intros s. unfold render. rewrite !length_app.
    change (length file_marker) with 10%nat.
    change (length code_open) with 11%nat.
    change (length code_close) with 4%nat. lia. }
  rewrite (map_ext _ _ Hrender).
  change (length prompt_head) with 1741%nat.
  change (length prompt_tail) with 160%nat.
  simpl length. lia.
Qed.

Lemma step_frame (self self' : Utils) :
  step self self' ->
  repo_path self' = repo_path self
  /\ output_file self' = output_file self
  /\ exists added, conversation_history self'
                   = conversation_history self ++ added.
Proof.
  intros Hstep. destruct Hstep.
  - repeat split. exists []. now rewrite app_nil_r.
  - repeat split. exists []. now rewrite app_nil_r.
  - unfold extraction, object_after.
    destruct (client (request code_samples)) as [e|message];
      [|destruct (blocks message) as [|text others]]; simpl;
      repeat split; try (exists []; now rewrite app_nil_r).
    eexists. rewrite <- app_assoc. reflexivity.
  - rewrite save_draft_object.
    repeat split. exists []. now rewrite app_nil_r.
Qed.

(** The configuration is fixed and the history is append-only: over any
    sequence of method calls the repository path and the output file stay
    what they were, and the history keeps all its turns, in place, new ones
    coming after them. *)
Theorem steps_frame (self self' : Utils) :
  steps self self' ->
  repo_path self' = repo_path self
  /\ output_file self' = output_file self
  /\ exists added, conversation_history self'
                   = conversation_history self ++ added.
Proof.
  induction 1 as [self|self mid self' _ IH Hstep].
  - repeat split. exists []. now rewrite app_nil_r.
  - destruct IH as (Hr & Ho & added & Hh).
    destruct (step_frame mid self' Hstep) as (Hr' & Ho' & added' & Hh').
    repeat split; [congruence | congruence |].
    exists (added ++ added'). now rewrite Hh', Hh, app_assoc.
Qed.

Lemma steps_frame_witness :
  repo_path (object_after (save_draft fs_full
               (object_after (extraction client_ok utils0 two_samples)) None))
  = repo
  /\ exists added,
      conversation_history (object_after (save_draft fs_full
               (object_after (extraction client_ok utils0 two_samples)) None))
      = conversation_history utils0 ++ added.
Proof.
  destruct (steps_frame utils0
              (object_after (save_draft fs_full
                 (object_after (extraction client_ok utils0 two_samples)) None)))
    as (Hr & _ & Hh).
  - eapply steps_step; [eapply steps_step; [apply steps_refl|]|].
    + apply (step_extraction client_ok utils0 two_samples).
    + apply (step_save_draft fs_full).
  - split; [exact Hr | exact Hh].
Defined.

Lemma step_draft (self self' : Utils) :
  step self self' -> draft_is_last_turn self -> draft_is_last_turn self'.
Proof.
  intros Hstep Hinv. destruct Hstep.
  - exact Hinv.
  - exact Hinv.
  - unfold extraction, object_after.
    destruct (client (request code_samples)) as [e|message]; [exact Hinv|].
    destruct (blocks message) as [|text others]; [exact Hinv|].
    unfold draft_is_last_turn. simpl.
    exists (conversation_history self), (prompt code_samples).
    now rewrite <- app_assoc.
  - now rewrite save_draft_object.
Qed.

(** On every object that the methods can produce from a new one, there is
    no draft exactly as long as the history is empty, and a draft is the
    text of the last turn, an [assistant] turn that follows a [user] turn. *)
Theorem reachable_draft (self : Utils) :
  reachable self ->
  (current_draft self = None <-> conversation_history self = [])
  /\ (forall d, current_draft self = Some d ->
                exists h p, conversation_history self
                            = h ++ [{| role := user; content := p |};
                                    {| role := assistant; content := d |}]).
Proof.
  intros Hreach.
  assert (Hinv : draft_is_last_turn self).
  { induction Hreach as [root out|self self' _ IH Hstep].
    - reflexivity.
    - now apply (step_draft self self'). }
  unfold draft_is_last_turn in Hinv.
  destruct (current_draft self) as [d|].
  - destruct Hinv as (h & p & Hh). split.
    + split; [discriminate|].
      intros Hempty. rewrite Hempty in Hh.
      destruct h; discriminate Hh.
    + intros d' [= <-]. exists h, p. exact Hh.
  - split; [tauto | discriminate].
Qed.

Lemma reachable_draft_witness :
  exists h p,
    conversation_history (object_after (extraction client_ok utils0 two_samples))
    = h ++ [{| role := user; content := p |};
            {| role := assistant; content := lit "# Style guide" |}].
Proof.
  destruct (reachable_draft
              (object_after (extraction client_ok utils0 two_samples)))
    as [_ Hlast].
  - eapply reachable_step.
    + apply (reachable_init repo (lit "guide.md")).
    + apply (step_extraction client_ok utils0 two_samples).
  - apply Hlast. reflexivity.
Defined.

(** * Further properties of save_draft *)

(** [save_draft] touches no file but the output file. It writes only when
    there is a content to save, the content given or else the draft, and the
    file can be opened and written; what it writes is that content. A file
    that was opened has been emptied even if the write then fails. *)
Theorem save_draft_writes (fs : FileSystem) (self : Utils)
        (content : option pystr) :
  Forall (fun e => match e with
                   | FileOpened p => p = output_file self
                   | FileWritten p s => p = output_file self
                                        /\ to_save self content = Some s
                   | _ => True
                   end)
         (effects (save_draft fs self content))
  /\ (forall s,
         In (FileWritten (output_file self) s)
            (effects (save_draft fs self content))
         <-> to_save self content = Some s
             /\ open_w fs (output_file self) = None
             /\ write_w fs (output_file self) s = None)
  /\ (In (FileOpened (output_file self)) (effects (save_draft fs self content))
      <-> to_save self content <> None
          /\ open_w fs (output_file self) = None).
Proof.
  unfold save_draft, effects.
  fold (to_save self content).
  destruct (to_save self content) as [c|].
  - destruct (open_w fs (output_file self)) as [e|] eqn:Hopen.
    + simpl. split; [repeat constructor|]. split.
      * intros s. split; [intros [Hp|[]]; discriminate Hp|].
        intros (_ & Hno & _). discriminate Hno.
      * split; [intros [Hp|[]]; discriminate Hp|].
        intros (_ & Hno). discriminate Hno.
    + destruct (write_w fs (output_file self) c) as [e|] eqn:Hwrite.
      * simpl. split; [repeat constructor|]. split.
        -- intros s. split.
           ++ intros [Hp|[Hp|[]]]; discriminate Hp.
           ++ intros ([= <-] & _ & Hno). congruence.
        -- split; [intros _; split; [discriminate | reflexivity]|].
           intros _. now left.
      * simpl. split; [repeat constructor|]. split.
        -- intros s. split.
           ++ intros [Hp|[Hp|[Hp|[]]]]; try discriminate Hp.
              injection Hp as <-. auto.
           ++ intros ([= <-] & _ & _). right. now left.
        -- split; [intros _; split; [discriminate | reflexivity]|].
           intros _. now left.
  - simpl. split; [repeat constructor|]. split.
    + intros s. split; [intros [Hp|[]]; discriminate Hp|].
      intros (Hno & _). discriminate Hno.
    + split; [intros [Hp|[]]; discriminate Hp|].
      intros (Hno & _). contradiction.
Qed.

(** Extraction and saving composed: after an extraction that succeeded,
    [save_draft] with no content writes to the output file the very text that
    the service returned, when the file can be opened and written. *)
Theorem save_draft_after_extraction (fs : FileSystem) (client : Client)
        (self : Utils) (code_samples : list Sample.t)
        (message : Message) (text : pystr) (others : list pystr) :
  client (request code_samples) = inr message ->
  blocks message = text :: others ->
  open_w fs (output_file self) = None ->
  write_w fs (output_file self) text = None ->
  effects (save_draft fs (object_after (extraction client self code_samples)) None)
  = [FileOpened (output_file self);
     FileWritten (output_file self) text;
     Print (SavedDraft (output_file self))].
Proof.
  intros Hcall Hblocks Hopen Hwrite.
  unfold extraction, object_after. rewrite Hcall, Hblocks.
  unfold save_draft, effects. simpl.
  now rewrite Hopen, Hwrite.
Qed.

Lemma save_draft_after_extraction_witness :
  effects (save_draft fs_tar (object_after (extraction client_ok utils0 two_samples))
                      None)
  = [FileOpened (lit "guide.md");
     FileWritten (lit "guide.md") (lit "# Style guide");
     Print (SavedDraft (lit "guide.md"))].
Proof.
  apply (save_draft_after_extraction fs_tar client_ok utils0 two_samples
           guide_message (lit "# Style guide") []); reflexivity.
Defined.

(** * Properties of main *)

Lemma method_effects_app (l1 l2 : list main_effect) :
  method_effects (l1 ++ l2) = method_effects l1 ++ method_effects l2.
Proof. apply flat_map_app. Qed.

Lemma method_effects_map (l : list effect) :
  method_effects (map Method l) = l.
Proof. induction l as [|e l IH]; simpl; [reflexivity | now rewrite IH]. Qed.

Lemma read_repo_path_asked (host : Host) (repo_path : pystr)
      (asked : list main_effect) :
  read_repo_path host = inr (repo_path, asked) -> method_effects asked = [].
Proof.
  unfold read_repo_path.
  destruct (argv host) as [|a [|p rest]]; try (intros [= _ <-]; reflexivity);
    destruct (typed host); intros [= _ <-] || discriminate; reflexivity.
Qed.

Lemma method_effects_say (l : main_line) (rest : list main_effect) :
  method_effects (Say l :: rest) = method_effects rest.
Proof. reflexivity. Qed.

Ltac main_branch Hasked :=
  simpl snd;
  repeat (rewrite method_effects_say || rewrite method_effects_app
          || rewrite method_effects_map || rewrite Hasked);
  simpl; rewrite ?app_nil_r, <- ?app_assoc; reflexivity.

(** The methods that [main] calls, in order: each step runs only if the one
    before gave something to work on. *)
Lemma main_methods (host : Host) (fs : FileSystem) (client : Client) :
  method_effects (snd (main host fs client))
  = match read_repo_path host with
    | inl _ => []
    | inr (repo_path, _) =>
        let root := to_path host repo_path in
        match path_exists host root, path_is_dir host root with
        | inr true, inr true =>
          effects (main_scan fs root)
          ++ match returned (main_scan fs root) with
             | [] => []
             | _ :: _ =>
                 effects (main_read fs root)
                 ++ match returned (main_read fs root) with
                    | [] => []
                    | _ :: _ =>
                        effects (main_extraction fs client root)
                        ++ match returned (main_extraction fs client root) with
                           | inl _ => []
                           | inr _ => effects (main_save fs client root)
                           end
                    end
             end
        | _, _ => []
        end
    end.
Proof.
  unfold main.
  destruct (read_repo_path host) as [e|[repo_path asked]] eqn:Hpath;
    [reflexivity|].
  apply read_repo_path_asked in Hpath.
  cbv zeta.
  destruct (path_exists host (to_path host repo_path)) as [e|[|]];
    [main_branch Hpath| |main_branch Hpath].
  destruct (path_is_dir host (to_path host repo_path)) as [e|[|]];
    [main_branch Hpath| |main_branch Hpath].
  destruct (returned (main_scan fs (to_path host repo_path))) as [|p l];
    [main_branch Hpath|].
  destruct (returned (main_read fs (to_path host repo_path))) as [|s l'];
    [main_branch Hpath|].
  destruct (returned (main_extraction fs client (to_path host repo_path)))
    as [x|d]; main_branch Hpath.
Qed.

Lemma read_loop_prints (fs : FileSystem) (self : Utils)
      (filepaths : list Path) (st : ReadState) :
  forallb is_print (printed st) = true ->
  forallb is_print (printed (fold_left (read_file fs self) filepaths st)) = true.
Proof.
  revert st.
  induction filepaths as [|p rest IH]; intros st Hst; [exact Hst|].
  simpl. apply IH. unfold read_file.
  destruct (read_text fs p) as [text|e];
    [destruct (relative_to p (repo_path self))|];
    simpl; rewrite forallb_app, Hst; reflexivity.
Qed.

Lemma prints_only (l : list effect) :
  forallb is_print l = true ->
  service_calls l = [] /\ filter is_write l = [].
Proof.
  induction l as [|e l IH]; [auto|].
  simpl. intros H. apply andb_true_iff in H. destruct H as [He Hl].
  destruct (IH Hl) as [Hs Hw].
  destruct e; try discriminate He. simpl. auto.
Qed.

Lemma main_scan_prints (fs : FileSystem) (root : Path) :
  forallb is_print (effects (main_scan fs root)) = true.
Proof. reflexivity. Qed.

Lemma main_read_prints (fs : FileSystem) (root : Path) :
  forallb is_print (effects (main_read fs root)) = true.
Proof.
  unfold main_read, read_files, effects, read_loop. simpl.
  rewrite forallb_app, read_loop_prints; reflexivity.
Qed.

Lemma extraction_effects (client : Client) (self : Utils)
      (code_samples : list Sample.t) :
  service_calls (effects (extraction client self code_samples))
  = [request code_samples]
  /\ filter is_write (effects (extraction client self code_samples)) = [].
Proof.
  unfold extraction, effects.
  destruct (client (request code_samples)) as [e|message]; [auto|].
  destruct (blocks message); [auto|].
  simpl. destruct (statistics_quiet (usage message)) as [-> ->]. auto.
Qed.

Lemma save_draft_no_call (fs : FileSystem) (self : Utils)
      (content : option pystr) :
  service_calls (effects (save_draft fs self content)) = [].
Proof.
  unfold save_draft, effects.
  destruct content as [c|]; [|destruct (current_draft self) as [d|]];
    try reflexivity;
    destruct (open_w fs (output_file self)); try reflexivity;
    destruct (write_w fs (output_file self) _); reflexivity.
Qed.

Lemma save_draft_written (fs : FileSystem) (self : Utils) (p s : pystr) :
  In (FileWritten p s) (effects (save_draft fs self None)) ->
  p = output_file self /\ current_draft self = Some s.
Proof.
  unfold save_draft, effects.
  destruct (current_draft self) as [d|]; [|intros [H|[]]; discriminate H].
  destruct (open_w fs (output_file self)); [intros [H|[]]; discriminate H|].
  destruct (write_w fs (output_file self) d).
  - intros [H|[H|[]]]; discriminate H.
  - intros [H|[H|[H|[]]]]; try discriminate H.
    injection H as <- <-. auto.
Qed.

Lemma extraction_success (client : Client) (self : Utils)
      (code_samples : list Sample.t) (d : pystr) :
  returned (extraction client self code_samples) = inr d ->
  exists message others,
    client (request code_samples) = inr message
    /\ blocks message = d :: others
    /\ current_draft (object_after (extraction client self code_samples)) = Some d
    /\ output_file (object_after (extraction client self code_samples))
       = output_file self.
Proof.
  unfold extraction, returned, object_after.
  destruct (client (request code_samples)) as [e|message]; [discriminate|].
  destruct (blocks message) as [|text others] eqn:Hblocks; [discriminate|].
  simpl. destruct (fst (statistics (usage message))); [discriminate|].
  intros [= <-]. exists message, others. now repeat split.
Qed.

Lemma main_scan_length (fs : FileSystem) (root : Path) :
  (length (returned (main_scan fs root)) <= 20)%nat.
Proof.
  change (returned (main_scan fs root))
    with (scan_matches MAX_FILES [] (rglob fs root (lit ".py"))).
  pose proof (scan_matches_length MAX_FILES (rglob fs root (lit ".py")) []) as H.
  unfold MAX_FILES in *. simpl length in H at 2. lia.
Qed.

Lemma main_read_length (fs : FileSystem) (root : Path) :
  (length (returned (main_read fs root))
   <= length (returned (main_scan fs root)))%nat.
Proof.
  destruct (read_loop_account fs (object_after (main_scan fs root))
              (returned (main_scan fs root))
              {| samples := []; total_lines := 0; printed := [] |})
    as (_ & Hs & _ & _).
  unfold main_read, read_files, returned, read_loop in *. simpl in *. lia.
Qed.

Lemma filter_is_write_app (l1 l2 : list effect) :
  filter is_write (l1 ++ l2) = filter is_write l1 ++ filter is_write l2.
Proof. apply filter_app. Qed.

Lemma service_calls_app (l1 l2 : list effect) :
  service_calls (l1 ++ l2) = service_calls l1 ++ service_calls l2.
Proof. apply flat_map_app. Qed.

Lemma lstrip_idempotent (s : pystr) : lstrip (lstrip s) = lstrip s.
Proof.
  induction s as [|c s IH]; [reflexivity|].
  simpl. destruct (is_space c) eqn:Hc; [exact IH|].
  simpl. now rewrite Hc.
Qed.

Lemma lstrip_snoc (s : pystr) (c : N) :
  is_space c = false -> lstrip (s ++ [c]) = lstrip s ++ [c].
Proof.
  intros Hc. induction s as [|x s IH]; simpl.
  - now rewrite Hc.
  - destruct (is_space x); [exact IH | reflexivity].
Qed.

Lemma lstrip_rstrip (s : pystr) :
  lstrip s = s -> lstrip (rstrip s) = rstrip s.
Proof.
  destruct s as [|c s]; [reflexivity|].
  simpl. destruct (is_space c) eqn:Hc.
  - intros Heq. exfalso.
    assert (Hlen : forall t, (length (lstrip t) <= length t)%nat).
    { induction t as [|x t IHt]; simpl; [lia|].
      destruct (is_space x); simpl; lia. }
    pose proof (Hlen s) as H. rewrite Heq in H. simpl in H. lia.
  - intros _. unfold rstrip. simpl rev.
    rewrite (lstrip_snoc _ _ Hc), rev_app_distr. simpl.
    now rewrite Hc.
Qed.

Lemma strip_idempotent (s : pystr) : strip (strip s) = strip s.
Proof.
  unfold strip.
  rewrite (lstrip_rstrip (lstrip s) (lstrip_idempotent s)).
  unfold rstrip. now rewrite rev_involutive, lstrip_idempotent.
Qed.

(** [main] calls the service at most once, and only with a repository path
    that exists and is a directory, after the scan found [.py] files of which
    some could be read: the request is the one built from the samples read,
    which are at most 20. *)
Theorem main_service_call (host : Host) (fs : FileSystem) (client : Client) :
  service_calls (method_effects (snd (main host fs client))) = []
  \/ exists repo_path asked,
      read_repo_path host = inr (repo_path, asked)
      /\ path_exists host (to_path host repo_path) = inr true
      /\ path_is_dir host (to_path host repo_path) = inr true
      /\ returned (main_read fs (to_path host repo_path)) <> []
      /\ (length (returned (main_read fs (to_path host repo_path))) <= 20)%nat
      /\ service_calls (method_effects (snd (main host fs client)))
         = [request (returned (main_read fs (to_path host repo_path)))].
Proof.
  rewrite main_methods.
  destruct (read_repo_path host) as [e|[repo_path asked]]; [now left|].
  cbv zeta.
  destruct (path_exists host (to_path host repo_path)) as [e|[|]] eqn:Hexists;
    [now left| |now left].
  destruct (path_is_dir host (to_path host repo_path)) as [e|[|]] eqn:Hdir;
    [now left| |now left].
  destruct (prints_only _ (main_scan_prints fs (to_path host repo_path)))
    as [Hscan _].
  destruct (prints_only _ (main_read_prints fs (to_path host repo_path)))
    as [Hread _].
  rewrite service_calls_app, Hscan.
  destruct (returned (main_scan fs (to_path host repo_path))) as [|p l] eqn:Hp;
    [now left|].
  rewrite service_calls_app, Hread.
  pose proof (main_read_length fs (to_path host repo_path)) as Hlen.
  pose proof (main_scan_length fs (to_path host repo_path)) as Hcap.
  destruct (returned (main_read fs (to_path host repo_path))) as [|s l'] eqn:Hs;
    [now left|].
  right. exists repo_path, asked.
  split; [reflexivity|]. split; [exact Hexists|]. split; [exact Hdir|].
  rewrite Hs.
  split; [discriminate|]. split; [lia|].
  rewrite service_calls_app.
  unfold main_extraction at 1. rewrite Hs.
  rewrite (proj1 (extraction_effects _ _ _)).
  simpl app.
  destruct (returned (main_extraction fs client (to_path host repo_path)));
    [reflexivity|].
  unfold main_save. now rewrite save_draft_no_call.
Qed.

(** [main] writes one file only, [coding_stylistic_guide_DRAFT.md], and
    what it writes there is the text of the first content block of the
    service's answer to the request built from the samples read; [main] then
    returns without an exception. *)
Theorem main_write (host : Host) (fs : FileSystem) (client : Client)
        (p s : pystr) :
  In (FileWritten p s) (method_effects (snd (main host fs client))) ->
  p = OUTPUT_FILE
  /\ fst (main host fs client) = inr tt
  /\ exists repo_path asked message others,
      read_repo_path host = inr (repo_path, asked)
      /\ client (request (returned (main_read fs (to_path host repo_path))))
         = inr message
      /\ blocks message = s :: others.
Proof.
  intros Hin.
  assert (Hw : In (FileWritten p s)
                  (filter is_write (method_effects (snd (main host fs client))))).
  { apply filter_In. split; [exact Hin | reflexivity]. }
  clear Hin. rewrite main_methods in Hw. unfold main.
  destruct (read_repo_path host) as [e|[repo_path asked]]; [destruct Hw|].
  cbv zeta in *.
  destruct (path_exists host (to_path host repo_path)) as [e|[|]];
    [destruct Hw| |destruct Hw].
  destruct (path_is_dir host (to_path host repo_path)) as [e|[|]];
    [destruct Hw| |destruct Hw].
  destruct (prints_only _ (main_scan_prints fs (to_path host repo_path)))
    as [_ Hscan].
  destruct (prints_only _ (main_read_prints fs (to_path host repo_path)))
    as [_ Hread].
  rewrite filter_is_write_app, Hscan in Hw.
  destruct (returned (main_scan fs (to_path host repo_path))) as [|q l];
    [destruct Hw|].
  rewrite filter_is_write_app, Hread in Hw.
  destruct (returned (main_read fs (to_path host repo_path))) as [|x l'] eqn:Hs;
    [destruct Hw|].
  rewrite filter_is_write_app in Hw.
  unfold main_extraction in Hw at 1.
  rewrite (proj2 (extraction_effects _ _ _)) in Hw.
  simpl app in Hw.
  destruct (returned (main_extraction fs client (to_path host repo_path)))
    as [e|d] eqn:Hd; [destruct Hw|].
  apply filter_In in Hw. destruct Hw as [Hw _].
  unfold main_save in Hw. apply save_draft_written in Hw.
  destruct Hw as [-> Hdraft].
  unfold main_extraction in Hd, Hdraft |- *.
  destruct (extraction_success _ _ _ _ Hd)
    as (message & others & Hcall & Hblocks & Hcur & Hout).
  rewrite Hcur in Hdraft. injection Hdraft as <-.
  split; [rewrite Hout; reflexivity|].
  split; [reflexivity|].
  exists repo_path, asked, message, others.
  rewrite Hs in *. auto.
Qed.

Lemma main_write_witness :
  fst (main (host_argv "repo") fs_corrupt client_ok) = inr tt
  /\ In (FileWritten OUTPUT_FILE (lit "# Style guide"))
        (method_effects (snd (main (host_argv "repo") fs_corrupt client_ok))).
Proof.
  assert (Hin : In (FileWritten OUTPUT_FILE (lit "# Style guide"))
                   (method_effects
                      (snd (main (host_argv "repo") fs_corrupt client_ok)))).
  { vm_compute. tauto. }
  split; [|exact Hin].
  apply (main_write (host_argv "repo") fs_corrupt client_ok
           OUTPUT_FILE (lit "# Style guide") Hin).
Defined.

(** When [extraction] raises, the exception leaves [main] and nothing has
    been opened or written: [save_draft] is not reached, even when the
    extraction had already set the draft. *)
Theorem main_extraction_raises (host : Host) (fs : FileSystem)
        (client : Client) (repo_path : pystr) (asked : list main_effect)
        (x : exn) :
  read_repo_path host = inr (repo_path, asked) ->
  path_exists host (to_path host repo_path) = inr true ->
  path_is_dir host (to_path host repo_path) = inr true ->
  returned (main_scan fs (to_path host repo_path)) <> [] ->
  returned (main_read fs (to_path host repo_path)) <> [] ->
  returned (main_extraction fs client (to_path host repo_path)) = inl x ->
  fst (main host fs client) = inl (Uncaught x)
  /\ filter is_write (method_effects (snd (main host fs client))) = [].
Proof.
  intros Hpath Hexists Hdir Hscanned Hread Hraised.
  rewrite main_methods. unfold main.
  rewrite Hpath. cbv zeta. rewrite Hexists, Hdir.
  destruct (prints_only _ (main_scan_prints fs (to_path host repo_path)))
    as [_ Hscan_quiet].
  destruct (prints_only _ (main_read_prints fs (to_path host repo_path)))
    as [_ Hread_quiet].
  destruct (returned (main_scan fs (to_path host repo_path))) as [|q l];
    [contradiction|].
  destruct (returned (main_read fs (to_path host repo_path))) as [|s l'] eqn:Hs;
    [contradiction|].
  rewrite Hraised. split; [reflexivity|].
  rewrite !filter_is_write_app, Hscan_quiet, Hread_quiet, app_nil_r.
  unfold main_extraction. now rewrite (proj2 (extraction_effects _ _ _)).
Qed.

Lemma main_extraction_raises_witness :
  fst (main (host_argv "repo") fs_corrupt client_no_total)
  = inl (Uncaught AttributeError)
  /\ filter is_write
       (method_effects (snd (main (host_argv "repo") fs_corrupt client_no_total)))
     = [].
Proof.
  apply (main_extraction_raises (host_argv "repo") fs_corrupt client_no_total
           (lit "repo") []); try reflexivity; discriminate.
Defined.

(** White space around the path typed at the question never matters: [main]
    runs the same, effects and outcome, on a line and on the line
    stripped. *)
Theorem main_typed_path_stripped (fs : FileSystem) (client : Client)
        (args : list pystr) (line : pystr) (parse : pystr -> Path)
        (exists_ is_dir : Path -> pystr + bool) :
  main {| argv := args; typed := Some line; to_path := parse;
          path_exists := exists_; path_is_dir := is_dir |} fs client
  = main {| argv := args; typed := Some (strip line); to_path := parse;
            path_exists := exists_; path_is_dir := is_dir |} fs client.
Proof.
  unfold main, read_repo_path. cbn [argv typed to_path path_exists path_is_dir].
  rewrite strip_idempotent. reflexivity.
Qed.

(** * The statistics of extraction *)

Lemma statistics_incomplete (u : Usage) :
  usage_complete u = false -> fst (statistics u) = Some AttributeError.
Proof.
  unfold statistics, usage_complete.
  destruct (input_tokens u); [|reflexivity].
  destruct (output_tokens u); [|reflexivity].
  destruct (total_tokens u); [discriminate | reflexivity].
Qed.

(** An answer that has a content block and lacks one of its usage counters
    makes [extraction] raise after the fields were assigned: no text is
    returned, and yet the draft is the text of the block and both turns are
    in the history. *)
Theorem extraction_raises_after_assignments (client : Client) (self : Utils)
        (code_samples : list Sample.t) (message : Message) (text : pystr)
        (others : list pystr) :
  client (request code_samples) = inr message ->
  blocks message = text :: others ->
  usage_complete (usage message) = false ->
  returned (extraction client self code_samples) = inl AttributeError
  /\ current_draft (object_after (extraction client self code_samples))
     = Some text
  /\ conversation_history (object_after (extraction client self code_samples))
     = conversation_history self
       ++ [{| role := user; content := prompt code_samples |};
           {| role := assistant; content := text |}].
Proof.
  intros Hcall Hblocks Hlacks.
  unfold extraction, returned, object_after.
  rewrite Hcall, Hblocks. simpl.
  rewrite (statistics_incomplete _ Hlacks).
  split; [reflexivity|]. split; [reflexivity|].
  now rewrite <- app_assoc.
Qed.

Lemma extraction_raises_after_assignments_witness :
  returned (extraction client_no_total utils0 two_samples) = inl AttributeError
  /\ current_draft (object_after (extraction client_no_total utils0 two_samples))
     = Some (lit "# Style guide").
Proof.
  destruct (extraction_raises_after_assignments client_no_total utils0
              two_samples guide_message_no_total (lit "# Style guide") [])
    as (Hraised & Hdraft & _); try reflexivity.
  split; [exact Hraised | exact Hdraft].
Defined.
